(** * my-video-app: the record / upload control flow of [VideoRecorder.tsx]
      and the storage client initialisation of [supabaseClient.ts].

    The component is embedded as a labelled transition system.  A [World]
    holds the component's refs and React state together with the part of
    the browser the component talks to: the media streams it acquired, the
    [MediaRecorder] objects it constructed, the asynchronous calls that are
    suspended at an [await], and the calls issued to the storage client.
    Every synchronous stretch of the source (an event handler, or the code
    between two [await]s) is one function on worlds; what the browser or
    the network answers is carried by the event that resumes the code.

    Reading conventions.
    - State setters take effect before the next event is handled (React
      re-renders between events), so a handler reads the current value of
      [isRecording] and [videoBlob].
    - The video element stays mounted; [videoRef] is still an option, as
      in the source, and the unmounted branches are embedded as written. *)

From Stdlib Require Import String Ascii NArith DecimalString.
From stdpp Require Import base option list strings.

Local Open Scope string_scope.
Local Open Scope list_scope.

(** ** JavaScript string and number operations used by the component *)

Module Js.

(** [s.includes(sub)] *)
Fixpoint includes (s sub : string) : bool :=
  String.prefix sub s
  || match s with
     | EmptyString => false
     | String _ s' => includes s' sub
     end.

(** [s.split(sep)[0]] for a one-character separator. *)
Fixpoint split_head (sep : ascii) (s : string) : string :=
  match s with
  | EmptyString => EmptyString
  | String c s' =>
      if Ascii.eqb c sep then EmptyString else String c (split_head sep s')
  end.

Definition string_of_N (n : N) : string :=
  NilZero.string_of_uint (N.to_uint n).

Definition two_digits (n : N) : string :=
  (if (n <? 10)%N then "0" else EmptyString) +:+ string_of_N n.

(** [(size / 1024 / 1024).toFixed(2)].  Dividing a double below 2^53 by a
    power of two is exact, so the number formatted is the rational
    size / 2^20, and [toFixed(2)] picks the integer [n] with [n / 100]
    closest to it, the larger one on a tie. *)
Definition megabytes_toFixed2 (size : nat) : string :=
  let n := ((200 * N.of_nat size + 1048576) / 2097152)%N in
  string_of_N (n / 100) +:+ "." +:+ two_digits (n mod 100).

(** [!v] for a value of type [string | undefined]: [undefined] and the
    empty string are falsy. *)
Definition not (v : option string) : bool :=
  match v with
  | None => true
  | Some s => String.eqb s EmptyString
  end.

Definition is_printable (c : ascii) : bool :=
  let n := N_of_ascii c in ((32 <=? n) && (n <=? 126))%N.

Definition to_lower (c : ascii) : ascii :=
  let n := N_of_ascii c in
  if ((65 <=? n) && (n <=? 90))%N then ascii_of_N (n + 32) else c.

Fixpoint all_printable (s : string) : bool :=
  match s with
  | EmptyString => true
  | String c s' => is_printable c && all_printable s'
  end.

Fixpoint lower (s : string) : string :=
  match s with
  | EmptyString => EmptyString
  | String c s' => String (to_lower c) (lower s')
  end.

End Js.

(** ** Blobs *)

Record Blob := mkBlob {
  blob_bytes : list Byte.byte;
  blob_type : string
}.

Definition blob_size (b : Blob) : nat := length (blob_bytes b).

(** [new Blob(parts, { type })]: the bytes of the parts in order; the type
    is lower-cased, and dropped when it has a character outside
    U+0020..U+007E. *)
Definition new_Blob (parts : list Blob) (type : string) : Blob :=
  {| blob_bytes := concat (map blob_bytes parts);
     blob_type := if Js.all_printable type then Js.lower type else EmptyString |}.

(** ** Browser objects *)

(** A [MediaStream] is named by its position in the list of streams the
    browser has handed out. *)
Definition MediaStream := nat.

Inductive TrackState := live | ended.

Record VideoElement := mkVideo { srcObject : option MediaStream }.

(** [rs_stopping]: [stop()] was called, the recorder's [state] is already
    'inactive', and its last [dataavailable] and its [stop] event are still
    to be dispatched. *)
Inductive RecorderPhase := rs_inactive | rs_recording | rs_stopping.

Record MediaRecorder := mkRecorder {
  rec_stream : MediaStream;
  rec_mimeType : string;
  rec_phase : RecorderPhase
}.

(** A recording session is active until its [stop] event has been handled. *)
Definition rec_active (r : MediaRecorder) : bool :=
  match rec_phase r with
  | rs_inactive => false
  | rs_recording | rs_stopping => true
  end.

(** What [new MediaRecorder(stream, options)] followed by
    [recorder.start(1000)] does: either call may throw. *)
Inductive RecorderOutcome := CtorThrows | StartThrows | Started.

(** ** Storage client *)

Inductive StorageCall :=
| Upload (bucket path : string) (body : Blob) (cacheControl : string) (upsert : bool)
| GetPublicUrl (bucket path : string).

Record StorageError := mkStorageError { message : string }.

(** The outcome of [await supabase.storage.from(..).upload(..)]: the promise
    resolves to [{ data, error }], or rejects. *)
Inductive UploadResponse :=
| Resolved (error : option StorageError)
| Rejected (reason : StorageError).

(** ** Suspended asynchronous calls *)

(** Who is waiting for [startStream()]: the mount effect and [handleUpload]
    drop its result, [startRecording] awaits it. *)
Inductive Caller := ResultDropped | FromStartRecording.

Inductive Suspended :=
| AwaitUserMedia (k : Caller)
| AwaitUpload (fileName filePath : string).

(** ** The world *)

Record World := mkWorld {
  (* refs *)
  videoRef : option VideoElement;
  mediaRecorderRef : option nat;
  recordedChunksRef : list Blob;
  (* React state *)
  isRecording : bool;
  videoBlob : option Blob;
  statusMessage : string;
  uploading : bool;
  (* browser and network *)
  streams : list TrackState;
  recorders : list MediaRecorder;
  suspended : list Suspended;
  storageLog : list StorageCall
}.

Definition set_videoRef v (w : World) : World :=
  mkWorld v (mediaRecorderRef w) (recordedChunksRef w) (isRecording w)
    (videoBlob w) (statusMessage w) (uploading w) (streams w) (recorders w)
    (suspended w) (storageLog w).

Definition set_mediaRecorderRef v (w : World) : World :=
  mkWorld (videoRef w) v (recordedChunksRef w) (isRecording w)
    (videoBlob w) (statusMessage w) (uploading w) (streams w) (recorders w)
    (suspended w) (storageLog w).

Definition set_recordedChunksRef v (w : World) : World :=
  mkWorld (videoRef w) (mediaRecorderRef w) v (isRecording w)
    (videoBlob w) (statusMessage w) (uploading w) (streams w) (recorders w)
    (suspended w) (storageLog w).

Definition setIsRecording v (w : World) : World :=
  mkWorld (videoRef w) (mediaRecorderRef w) (recordedChunksRef w) v
    (videoBlob w) (statusMessage w) (uploading w) (streams w) (recorders w)
    (suspended w) (storageLog w).

Definition setVideoBlob v (w : World) : World :=
  mkWorld (videoRef w) (mediaRecorderRef w) (recordedChunksRef w) (isRecording w)
    v (statusMessage w) (uploading w) (streams w) (recorders w)
    (suspended w) (storageLog w).

Definition setStatusMessage v (w : World) : World :=
  mkWorld (videoRef w) (mediaRecorderRef w) (recordedChunksRef w) (isRecording w)
    (videoBlob w) v (uploading w) (streams w) (recorders w)
    (suspended w) (storageLog w).

Definition setUploading v (w : World) : World :=
  mkWorld (videoRef w) (mediaRecorderRef w) (recordedChunksRef w) (isRecording w)
    (videoBlob w) (statusMessage w) v (streams w) (recorders w)
    (suspended w) (storageLog w).

Definition set_streams v (w : World) : World :=
  mkWorld (videoRef w) (mediaRecorderRef w) (recordedChunksRef w) (isRecording w)
    (videoBlob w) (statusMessage w) (uploading w) v (recorders w)
    (suspended w) (storageLog w).

Definition set_recorders v (w : World) : World :=
  mkWorld (videoRef w) (mediaRecorderRef w) (recordedChunksRef w) (isRecording w)
    (videoBlob w) (statusMessage w) (uploading w) (streams w) v
    (suspended w) (storageLog w).

Definition set_suspended v (w : World) : World :=
  mkWorld (videoRef w) (mediaRecorderRef w) (recordedChunksRef w) (isRecording w)
    (videoBlob w) (statusMessage w) (uploading w) (streams w) (recorders w)
    v (storageLog w).

Definition set_storageLog v (w : World) : World :=
  mkWorld (videoRef w) (mediaRecorderRef w) (recordedChunksRef w) (isRecording w)
    (videoBlob w) (statusMessage w) (uploading w) (streams w) (recorders w)
    (suspended w) v.

(** [videoRef.current?.srcObject] *)
Definition current_srcObject (w : World) : option MediaStream :=
  match videoRef w with
  | Some v => srcObject v
  | None => None
  end.

(** ** The component: [VideoRecorder.tsx] *)

(** The options the recorder is constructed with (line 56). *)
Definition options_mimeType : string := "video/webm; codecs=vp8".

(** The state of the first render: [useRef] and [useState] initial values. *)
Definition first_render : World :=
  {| videoRef := Some (mkVideo None);
     mediaRecorderRef := None;
     recordedChunksRef := [];
     isRecording := false;
     videoBlob := None;
     statusMessage := "Ready to start recording.";
     uploading := false;
     streams := [];
     recorders := [];
     suspended := [];
     storageLog := [] |}.

(** *** 1. [startStream] (lines 18-36) *)

(** Up to [await navigator.mediaDevices.getUserMedia(..)]: the call is
    suspended; [k] records who receives the result. *)
Definition startStream (k : Caller) (w : World) : World :=
  set_suspended (suspended w ++ [AwaitUserMedia k]) w.

(** From the [await] on.  [granted] says whether [getUserMedia] resolved
    (with a fresh stream, all tracks live) or rejected.  The result is
    the stream the function returns, [None] standing for both [null] and
    [undefined]. *)
Definition startStream_resume (granted : bool) (w : World)
  : World * option MediaStream :=
  if granted then
    let stream := length (streams w) in
    let w := set_streams (streams w ++ [live]) w in
    match videoRef w with
    | Some _ =>
        let w := set_videoRef (Some (mkVideo (Some stream))) w in
        let w := setStatusMessage "Camera stream active. Click Record." w in
        (w, Some stream)
    | None => (w, None)
    end
  else
    (setStatusMessage "Error: Could not access camera and microphone." w, None).

(** The mount effect (lines 38-41). *)
Definition mounted : World := startStream ResultDropped first_render.

(** *** 2. [startRecording] (lines 45-88) *)

(** [recorder.ondataavailable] (lines 60-64) *)
Definition ondataavailable (data : Blob) (w : World) : World :=
  if Nat.ltb 0 (blob_size data)
  then set_recordedChunksRef (recordedChunksRef w ++ [data]) w
  else w.

(** [stream.getTracks().forEach(track => track.stop())] *)
Definition stop_tracks (stream : MediaStream) (w : World) : World :=
  set_streams (<[stream := ended]> (streams w)) w.

(** [recorder.onstop] (lines 66-75); [recorder] is the recorder whose
    handler this is, its stream the one [startRecording] constructed it
    with. *)
Definition onstop (recorder : MediaRecorder) (w : World) : World :=
  let mimeType := Js.split_head ";" (rec_mimeType recorder) in
  let blob := new_Blob (recordedChunksRef w) mimeType in
  let w := setVideoBlob (Some blob) w in
  let w := setIsRecording false w in
  let w :=
    setStatusMessage
      ("Recording finished. Size: " +:+ Js.megabytes_toFixed2 (blob_size blob)
         +:+ " MB. Ready to upload.") w in
  stop_tracks (rec_stream recorder) w.

(** The [try] block (lines 54-86), once a stream is at hand. *)
Definition startRecording_try (stream : MediaStream) (mk : RecorderOutcome)
    (w : World) : World :=
  match mk with
  | CtorThrows =>
      setStatusMessage "Error starting recording. Try refreshing." w
  | StartThrows =>
      let recorder := mkRecorder stream options_mimeType rs_inactive in
      let w := set_recorders (recorders w ++ [recorder]) w in
      let w := set_recordedChunksRef [] w in
      setStatusMessage "Error starting recording. Try refreshing." w
  | Started =>
      let id := length (recorders w) in
      let recorder := mkRecorder stream options_mimeType rs_recording in
      let w := set_recorders (recorders w ++ [recorder]) w in
      let w := set_recordedChunksRef [] w in
      let w := set_mediaRecorderRef (Some id) w in
      let w := setIsRecording true w in
      let w := setVideoBlob None w in
      setStatusMessage "Recording..." w
  end.

(** Up to the [await startStream()] of line 49, or to the end when the
    video element already has a stream. *)
Definition startRecording (mk : RecorderOutcome) (w : World) : World :=
  match current_srcObject w with
  | Some stream => startRecording_try stream mk w
  | None =>
      let w := setStatusMessage "Stream not available. Retrying stream access..." w in
      startStream FromStartRecording w
  end.

(** From line 50 on, [newStream] being what [startStream] returned. *)
Definition startRecording_resume (newStream : option MediaStream)
    (mk : RecorderOutcome) (w : World) : World :=
  match newStream with
  | None => w
  | Some stream => startRecording_try stream mk w
  end.

(** *** 3. [stopRecording] (lines 92-97) *)

(** [recorder.stop()]: a recording recorder becomes inactive and its
    [stop] event is queued; on an inactive recorder nothing happens. *)
Definition MediaRecorder_stop (id : nat) (w : World) : World :=
  match recorders w !! id with
  | Some r =>
      match rec_phase r with
      | rs_recording =>
          set_recorders
            (<[id := mkRecorder (rec_stream r) (rec_mimeType r) rs_stopping]>
               (recorders w)) w
      | _ => w
      end
  | None => w
  end.

Definition stopRecording (w : World) : World :=
  match mediaRecorderRef w with
  | Some id => if isRecording w then MediaRecorder_stop id w else w
  | None => w
  end.

(** *** 4. [handleUpload] (lines 101-140) *)

Definition bucket : string := "videos".

Definition fileExt_of (b : Blob) : string :=
  if Js.includes (blob_type b) "webm" then "webm" else "mp4".

(** Up to the [await] of line 117; [uuid] is what [uuidv4()] returns. *)
Definition handleUpload (uuid : string) (w : World) : World :=
  match videoBlob w with
  | None => setStatusMessage "No video to upload." w
  | Some blob =>
      let w := setUploading true w in
      let w := setStatusMessage "Uploading to Supabase..." w in
      let fileExt := fileExt_of blob in
      let fileName := uuid +:+ "." +:+ fileExt in
      let filePath := "public_videos/" +:+ fileName in
      let w :=
        set_storageLog
          (storageLog w ++ [Upload bucket filePath blob "3600" false]) w in
      set_suspended (suspended w ++ [AwaitUpload fileName filePath]) w
  end.

(** From the [await] on; [publicUrl] is what [getPublicUrl] answers. *)
Definition handleUpload_resume (fileName filePath : string)
    (response : UploadResponse) (publicUrl : string) (w : World) : World :=
  let failed (error : StorageError) :=
    let w := setStatusMessage ("Upload failed: " +:+ message error) w in
    setUploading false w in
  match response with
  | Resolved None =>
      let w := set_storageLog (storageLog w ++ [GetPublicUrl bucket filePath]) w in
      let w :=
        setStatusMessage
          ("Upload successful! File: " +:+ fileName +:+ ". Public URL: "
             +:+ publicUrl) w in
      let w := setVideoBlob None w in
      let w := setUploading false w in
      startStream ResultDropped w
  | Resolved (Some error) => failed error
  | Rejected reason => failed reason
  end.

(** ** Events *)

Inductive Event :=
| StartRecording (mk : RecorderOutcome)
| StopRecording
| HandleUpload (uuid : string)
| DataAvailable (id : nat) (data : Blob)
| RecorderStopped (id : nat)
| UserMediaSettled (i : nat) (granted : bool) (mk : RecorderOutcome)
| UploadSettled (i : nat) (response : UploadResponse) (publicUrl : string).

(** One event.  [None]: the event cannot occur in this world (a recorder
    that is not active dispatches nothing, a call that is not suspended
    does not resume). *)
Definition step (w : World) (e : Event) : option World :=
  match e with
  | StartRecording mk => Some (startRecording mk w)
  | StopRecording => Some (stopRecording w)
  | HandleUpload uuid => Some (handleUpload uuid w)
  | DataAvailable id data =>
      match recorders w !! id with
      | Some r => if rec_active r then Some (ondataavailable data w) else None
      | None => None
      end
  | RecorderStopped id =>
      match recorders w !! id with
      | Some r =>
          if rec_active r then
            let r' := mkRecorder (rec_stream r) (rec_mimeType r) rs_inactive in
            Some (onstop r' (set_recorders (<[id := r']> (recorders w)) w))
          else None
      | None => None
      end
  | UserMediaSettled i granted mk =>
      match suspended w !! i with
      | Some (AwaitUserMedia k) =>
          let w := set_suspended (delete i (suspended w)) w in
          let '(w, newStream) := startStream_resume granted w in
          match k with
          | ResultDropped => Some w
          | FromStartRecording => Some (startRecording_resume newStream mk w)
          end
      | _ => None
      end
  | UploadSettled i response publicUrl =>
      match suspended w !! i with
      | Some (AwaitUpload fileName filePath) =>
          let w := set_suspended (delete i (suspended w)) w in
          Some (handleUpload_resume fileName filePath response publicUrl w)
      | _ => None
      end
  end.

Fixpoint run (w : World) (es : list Event) : option World :=
  match es with
  | [] => Some w
  | e :: es' =>
      match step w e with
      | Some w' => run w' es'
      | None => None
      end
  end.

Definition reachable (w : World) : Prop :=
  exists es, run mounted es = Some w.

(** ** The controller state of the specification *)

Inductive ControllerState := Idle | StreamReady | Recording | Recorded | Uploading.

Definition stream_live (w : World) : bool :=
  match current_srcObject w with
  | Some stream =>
      match streams w !! stream with
      | Some live => true
      | _ => false
      end
  | None => false
  end.

(** The component keeps no state variable of this type; the state is read
    off the fields the render reads (lines 157-196), in the order it tests
    them: [isRecording] first, then [uploading], then [videoBlob].  Without
    an artifact the controller is ready when the preview has a stream whose
    tracks are live. *)
Definition controllerState (w : World) : ControllerState :=
  if isRecording w then Recording
  else if uploading w then Uploading
  else match videoBlob w with
       | Some _ => Recorded
       | None => if stream_live w then StreamReady else Idle
       end.

(** The number of recording sessions that are active. *)
Definition active_sessions (w : World) : nat :=
  length (List.filter rec_active (recorders w)).

(** ** [supabaseClient.ts] *)

Definition missing_configuration : string :=
  "Missing Supabase URL or Anon Key environment variables".

(** What evaluating the module does: it throws, or it exports [supabase]. *)
Inductive ModuleResult (Client : Type) :=
| Throws (error : string)
| Exports (client : Client).

Arguments Throws {Client} error.
Arguments Exports {Client} client.

(** An evaluation of the module: the calls of [createClient] it made, with
    their arguments, and how it ended. *)
Record Evaluation (Client : Type) := mkEvaluation {
  client_calls : list (string * string);
  module_result : ModuleResult Client
}.

Arguments mkEvaluation {Client} client_calls module_result.
Arguments client_calls {Client} e.
Arguments module_result {Client} e.

Section SupabaseClientModule.

(** [createClient] is the storage library's, not the repository's.  All
    the module relies on is that the call returns a client or throws
    ([inl]: the message of the error). *)
Variable Client : Type.
Variable createClient : string -> string -> string + Client.

(** [supabaseUrl] and [supabaseAnonKey] are the two values read from
    [process.env] ([None]: undefined).  In the last branch the guard of
    line 7 has already thrown. *)
Definition supabase (supabaseUrl supabaseAnonKey : option string)
  : Evaluation Client :=
  if Js.not supabaseUrl || Js.not supabaseAnonKey then
    mkEvaluation [] (Throws missing_configuration)
  else
    match supabaseUrl, supabaseAnonKey with
    | Some url, Some key =>
        mkEvaluation [(url, key)]
          match createClient url key with
          | inl error => Throws error
          | inr client => Exports client
          end
    | _, _ => mkEvaluation [] (Throws missing_configuration)
    end.

End SupabaseClientModule.

Arguments supabase {Client} createClient supabaseUrl supabaseAnonKey.

(** A [createClient] to try the module on.  Like the library's it refuses
    a URL that is not an HTTP or HTTPS one; a client is represented by the
    two values it was created from. *)
Record SupabaseClient := mkClient {
  client_url : string;
  client_key : string
}.

Definition checking_createClient (url key : string) : string + SupabaseClient :=
  if String.prefix "http://" url || String.prefix "https://" url
  then inr (mkClient url key)
  else inl "Invalid supabaseUrl: Must be a valid HTTP or HTTPS URL.".

(** ** The invariant of the controller state *)

Definition has_artifact (w : World) : bool :=
  match videoBlob w with
  | Some _ => true
  | None => false
  end.

(** [mediaRecorderRef.current] is a recorder whose session is active. *)
Definition current_session_active (w : World) : bool :=
  match mediaRecorderRef w with
  | Some id =>
      match recorders w !! id with
      | Some r => rec_active r
      | None => false
      end
  | None => false
  end.

Definition state_invariant (w : World) : bool :=
  match controllerState w with
  | Recorded | Uploading => has_artifact w
  | Recording => negb (has_artifact w) && current_session_active w
  | Idle | StreamReady => true
  end.

(** The invariant, spelled out; [state_invariant] decides it. *)
Definition StateInvariant (w : World) : Prop :=
  match controllerState w with
  | Recorded | Uploading => videoBlob w <> None
  | Recording =>
      videoBlob w = None /\
      exists id r,
        mediaRecorderRef w = Some id /\ recorders w !! id = Some r /\
        rec_active r = true
  | Idle | StreamReady => True
  end.

(** ** One recording session *)

(** What happens to a session between its start and its finalization: the
    recorder delivers a segment, or the user asks to stop. *)
Inductive SessionEvent :=
| Segment (data : Blob)
| StopRequest.

Definition session_event (id : nat) (e : SessionEvent) : Event :=
  match e with
  | Segment data => DataAvailable id data
  | StopRequest => StopRecording
  end.

Fixpoint segments (es : list SessionEvent) : list Blob :=
  match es with
  | [] => []
  | Segment data :: es' => data :: segments es'
  | StopRequest :: es' => segments es'
  end.

Definition nonempty (data : Blob) : bool := Nat.ltb 0 (blob_size data).

(** ** Concrete worlds and runs *)

(** A segment of [n] bytes, as the recorder delivers them. *)
Definition segment (n : nat) : Blob := mkBlob (repeat Byte.x2a n) "video/webm".

(** The world once the mount effect's [getUserMedia] has been granted. *)
Definition camera_ready : World :=
  fst (startStream_resume true (set_suspended [] mounted)).

(** Grant the camera, record two segments, stop, finalize. *)
Definition one_take : list Event :=
  [UserMediaSettled 0 true Started; StartRecording Started;
   DataAvailable 0 (segment 3); StopRecording;
   DataAvailable 0 (segment 5); RecorderStopped 0].

(** The world a run from the mounted component ends in. *)
Definition after (es : list Event) : World :=
  match run mounted es with
  | Some w => w
  | None => mounted
  end.

(** One take, then an upload the storage accepts, then a refusal of the
    camera when the stream is acquired again. *)
Definition upload_then_refusal : list Event :=
  one_take ++
  [HandleUpload "0b9f"; UploadSettled 0 (Resolved None) "https://cdn/0b9f.webm";
   UserMediaSettled 0 false Started].

(** ** Runs in which the recorder is constructed only while not recording *)

(** Does the event run the [try] block of [startRecording] to its end,
    constructing and starting a recorder? *)
Definition constructs_recorder (w : World) (e : Event) : bool :=
  match e with
  | StartRecording Started =>
      match current_srcObject w with
      | Some _ => true
      | None => false
      end
  | UserMediaSettled i true Started =>
      match suspended w !! i, videoRef w with
      | Some (AwaitUserMedia FromStartRecording), Some _ => true
      | _, _ => false
      end
  | _ => false
  end.

(** [run], restricted to the runs in which no recorder is constructed
    while [isRecording] is true.  The render offers the start control only
    while [isRecording] is false (line 157). *)
Fixpoint run_guarded (w : World) (es : list Event) : option World :=
  match es with
  | [] => Some w
  | e :: es' =>
      if constructs_recorder w e && isRecording w then None
      else match step w e with
           | Some w' => run_guarded w' es'
           | None => None
           end
  end.

(** With at most one session, and none while not recording. *)
Definition single_session (w : World) : Prop :=
  (isRecording w = false -> active_sessions w = 0) /\ active_sessions w <= 1.

(** Start twice in a row once the camera is granted. *)
Definition start_twice : list Event :=
  [UserMediaSettled 0 true Started; StartRecording Started;
   StartRecording Started].

(** ** Runs between the start of a session and the next finalization *)


(** The segments delivered in a run, and those delivered by recorder [id]. *)
Fixpoint delivered (es : list Event) : list Blob :=
  match es with
  | [] => []
  | DataAvailable _ data :: es' => data :: delivered es'
  | _ :: es' => delivered es'
  end.

Fixpoint delivered_by (id : nat) (es : list Event) : list Blob :=
  match es with
  | [] => []
  | DataAvailable id' data :: es' =>
      if Nat.eqb id' id then data :: delivered_by id es'
      else delivered_by id es'
  | _ :: es' => delivered_by id es'
  end.

(** The recorder reports the encoding it was constructed with. *)
Definition declared (r : MediaRecorder) : Prop :=
  rec_mimeType r = options_mimeType.

(** No session other than [id] is active. *)
Definition only_active (id : nat) (w : World) : Prop :=
  forall id' r, recorders w !! id' = Some r -> rec_active r = true -> id' = id.



(** The example scenario of the specification: two segments of 4096 and
    8192 bytes, stop, and an upload the storage accepts. *)
Definition example_scenario : list Event :=
  [UserMediaSettled 0 true Started; StartRecording Started;
   DataAvailable 0 (segment 4096); DataAvailable 0 (segment (2 * 4096));
   StopRecording; RecorderStopped 0;
   HandleUpload "0b9f"; UploadSettled 0 (Resolved None) "https://cdn/0b9f.webm"].

(** ** The render (lines 143-212) *)

(** A rendered button: whether it is disabled, and its label. *)
Record Control := mkControl {
  disabled : bool;
  label : string
}.

(** What the component returns, as far as it depends on the state: the
    controls that are rendered ([None]: not rendered), the status line and
    its colour, and the blob of the review player. *)
Record View := mkView {
  startButton : option Control;
  stopButton : option Control;
  uploadButton : option Control;
  statusText : string;
  statusColor : string;
  review : option Blob
}.

Definition render (w : World) : View :=
  {| startButton :=
       if negb (isRecording w)
       then Some (mkControl (uploading w) "Start Recording")
       else None;
     stopButton :=
       if negb (isRecording w)
       then None
       else Some (mkControl false "Stop Recording");
     uploadButton :=
       match videoBlob w with
       | Some _ =>
           if negb (isRecording w)
           then Some (mkControl (uploading w)
                        (if uploading w then "Uploading..." else "Upload Video"))
           else None
       | None => None
       end;
     statusText := "**Status:** " +:+ statusMessage w;
     statusColor :=
       if uploading w then "orange"
       else match videoBlob w with
            | Some _ => "green"
            | None => "black"
            end;
     review :=
       match videoBlob w with
       | Some blob => if negb (isRecording w) then Some blob else None
       | None => None
       end |}.

(** A button can be clicked when it is rendered and not disabled. *)
Definition clickable (c : option Control) : bool :=
  match c with
  | Some control => negb (disabled control)
  | None => false
  end.

(** The events the view lets happen: a handler runs when its button is
    clicked; the browser and the network are not held back by the view. *)
Definition offered (v : View) (e : Event) : bool :=
  match e with
  | StartRecording _ => clickable (startButton v)
  | StopRecording => clickable (stopButton v)
  | HandleUpload _ => clickable (uploadButton v)
  | DataAvailable _ _ | RecorderStopped _
  | UserMediaSettled _ _ _ | UploadSettled _ _ _ => true
  end.

(** [run], restricted to the runs in which the handlers are invoked through
    the rendered controls. *)
Fixpoint run_ui (w : World) (es : list Event) : option World :=
  match es with
  | [] => Some w
  | e :: es' =>
      if offered (render w) e
      then match step w e with
           | Some w' => run_ui w' es'
           | None => None
           end
      else None
  end.

(** ** Measures and predicates of the further properties *)

Definition is_upload (s : Suspended) : bool :=
  match s with
  | AwaitUpload _ _ => true
  | AwaitUserMedia _ => false
  end.

(** The uploads whose answer is still awaited. *)
Definition uploads_in_flight (w : World) : nat :=
  length (List.filter is_upload (suspended w)).


(** The stream handed out last. *)
Definition latest_stream (w : World) : option MediaStream :=
  match length (streams w) with
  | 0 => None
  | S n => Some n
  end.

(** The shape of the calls the component issues: a write goes to "videos",
    never overwrites, carries cache control "3600" and a "video/webm" body,
    and is named "public_videos/<identifier>.webm"; a URL is asked of
    "videos". *)
Definition call_shape (c : StorageCall) : Prop :=
  match c with
  | Upload b path body cacheControl upsert =>
      b = "videos" /\ upsert = false /\ cacheControl = "3600" /\
      blob_type body = "video/webm" /\
      exists uuid, path = "public_videos/" +:+ uuid +:+ ".webm"
  | GetPublicUrl b _ => b = "videos"
  end.

(** Every URL asked for is the URL of an object written earlier. *)
Definition urls_follow_writes (log : list StorageCall) : Prop :=
  forall j b path,
    log !! j = Some (GetPublicUrl b path) ->
    exists i body,
      i < j /\ log !! i = Some (Upload "videos" path body "3600" false).

(** Every upload still awaited has been written to the log. *)
Definition awaited_are_written (w : World) : Prop :=
  forall fileName filePath,
    AwaitUpload fileName filePath ∈ suspended w ->
    exists body, Upload "videos" filePath body "3600" false ∈ storageLog w.

(** A segment given to [ondataavailable] although it is empty, and runs
    used to try the properties on. *)
Definition empty_segment : Blob := mkBlob [] "video/webm".

Definition take_and_upload : list Event :=
  one_take ++
  [HandleUpload "0b9f"; UploadSettled 0 (Resolved None) "https://cdn/0b9f.webm"].


(** ** Runs in which a session or an upload is left undisturbed *)

(** [new MediaRecorder(..)] returns, whether or not [start] then throws. *)
Definition constructor_returns (mk : RecorderOutcome) : bool :=
  match mk with
  | CtorThrows => false
  | StartThrows | Started => true
  end.

(** Does the event construct a recorder or finalize one?  A recorder is
    constructed when [startRecording] reaches the constructor, at once
    with a stream in the preview or when the stream it awaits is granted,
    and the constructor returns. *)
Definition disturbs (w : World) (e : Event) : bool :=
  match e with
  | StartRecording mk =>
      constructor_returns mk
      && match current_srcObject w with
         | Some _ => true
         | None => false
         end
  | UserMediaSettled i granted mk =>
      granted && constructor_returns mk
      && match suspended w !! i, videoRef w with
         | Some (AwaitUserMedia FromStartRecording), Some _ => true
         | _, _ => false
         end
  | RecorderStopped _ => true
  | StopRecording | HandleUpload _ | DataAvailable _ _
  | UploadSettled _ _ _ => false
  end.

(** Does the event do that, or start an upload, or bring the answer to
    one? *)
Definition interferes (w : World) (e : Event) : bool :=
  disturbs w e
  || match e with
     | HandleUpload _ => has_artifact w
     | UploadSettled _ _ _ => true
     | _ => false
     end.

(** [run], restricted to the runs none of whose events is [bad] in the
    world it occurs in. *)
Fixpoint run_avoiding (bad : World -> Event -> bool) (w : World)
    (es : list Event) : option World :=
  match es with
  | [] => Some w
  | e :: es' =>
      if bad w e then None
      else match step w e with
           | Some w' => run_avoiding bad w' es'
           | None => None
           end
  end.

(** A session during which [startRecording] is invoked again: the first
    recorder delivers 3 bytes, a second recorder is started, the first
    delivers 2 more bytes and is finalized. *)
Definition interrupted_session : list Event :=
  [UserMediaSettled 0 true Started; StartRecording Started;
   DataAvailable 0 (segment 3); StartRecording Started;
   DataAvailable 0 (segment 2); RecorderStopped 0].

(** The start button clicked twice before any stream is there; the first
    of the two awaited streams is granted and a take is made and handed to
    [handleUpload]; then the second awaited stream is granted, while the
    upload is under way. *)
Definition grant_during_upload : list Event :=
  [StartRecording Started; StartRecording Started;
   UserMediaSettled 1 true Started;
   DataAvailable 0 (segment 3); StopRecording; RecorderStopped 0;
   HandleUpload "0b9f"; UserMediaSettled 1 true Started].

(** The same, and then the storage refuses the write. *)
Definition refusal_after_grant : list Event :=
  grant_during_upload ++
  [UploadSettled 1 (Resolved (Some (mkStorageError "Bucket not found"))) "n/a"].

(** * Properties *)

(** Reduce the projections of a world built with the setters, and nothing
    else. *)
Ltac fields :=
  cbn [videoRef mediaRecorderRef recordedChunksRef isRecording videoBlob
       statusMessage uploading streams recorders suspended storageLog
       set_videoRef set_mediaRecorderRef set_recordedChunksRef setIsRecording
       setVideoBlob setStatusMessage setUploading set_streams set_recorders
       set_suspended set_storageLog startStream fst snd].

Tactic Notation "fields" "in" hyp(H) :=
  cbn [videoRef mediaRecorderRef recordedChunksRef isRecording videoBlob
       statusMessage uploading streams recorders suspended storageLog
       set_videoRef set_mediaRecorderRef set_recordedChunksRef setIsRecording
       setVideoBlob setStatusMessage setUploading set_streams set_recorders
       set_suspended set_storageLog startStream fst snd] in H.

(** Case analysis on one event: the world after it, written out. *)
Ltac step_cases H :=
  match type of H with
  | step ?w ?e = Some ?w' =>
      destruct e;
      unfold step, startRecording, startRecording_resume, startStream_resume,
        startRecording_try, stopRecording, MediaRecorder_stop, handleUpload,
        handleUpload_resume, ondataavailable, onstop, stop_tracks,
        current_srcObject in H;
      fields in H;
      repeat match type of H with
        | context [match ?x with _ => _ end] =>
            match x with
            | context [match _ with _ => _ end] => fail 1
            | _ => destruct x eqn:?
            end; fields in H
        end;
      try discriminate H;
      inversion H; subst w'; clear H
  end.

(** ** How the events unfold *)

Lemma step_DataAvailable (w : World) (id : nat) (r : MediaRecorder) (data : Blob) :
  recorders w !! id = Some r -> rec_active r = true ->
  step w (DataAvailable id data) = Some (ondataavailable data w).
Proof. intros Hr Ha. unfold step. now rewrite Hr, Ha. Qed.

Lemma step_RecorderStopped (w : World) (id : nat) (r : MediaRecorder) :
  recorders w !! id = Some r -> rec_active r = true ->
  step w (RecorderStopped id) =
    let r' := mkRecorder (rec_stream r) (rec_mimeType r) rs_inactive in
    Some (onstop r' (set_recorders (<[id := r']> (recorders w)) w)).
Proof. intros Hr Ha. unfold step. now rewrite Hr, Ha. Qed.

Lemma step_UploadSettled (w : World) (i : nat) (fileName filePath : string)
    (response : UploadResponse) (publicUrl : string) :
  suspended w !! i = Some (AwaitUpload fileName filePath) ->
  step w (UploadSettled i response publicUrl) =
    Some (handleUpload_resume fileName filePath response publicUrl
            (set_suspended (delete i (suspended w)) w)).
Proof. intros Hs. unfold step. now rewrite Hs. Qed.

Lemma step_UserMediaSettled_dropped (w : World) (i : nat) (granted : bool)
    (mk : RecorderOutcome) :
  suspended w !! i = Some (AwaitUserMedia ResultDropped) ->
  step w (UserMediaSettled i granted mk) =
    Some (fst (startStream_resume granted
                 (set_suspended (delete i (suspended w)) w))).
Proof.
  intros Hs. unfold step. rewrite Hs.
  now destruct (startStream_resume _ _).
Qed.

Lemma run_app (w : World) (es1 es2 : list Event) :
  run w (es1 ++ es2) =
    match run w es1 with
    | Some w' => run w' es2
    | None => None
    end.
Proof.
  revert w. induction es1 as [|e es1 IH]; intros w; simpl; [reflexivity|].
  destruct (step w e); [apply IH | reflexivity].
Qed.

Lemma reachable_ind' (P : World -> Prop) :
  P mounted ->
  (forall w e w', P w -> step w e = Some w' -> P w') ->
  forall w, reachable w -> P w.
Proof.
  intros H0 Hstep w [es Hes]. revert w Hes.
  induction es as [|e es IH] using rev_ind; intros w Hes.
  - simpl in Hes. now inversion Hes.
  - rewrite run_app in Hes. destruct (run mounted es) as [w0|] eqn:E; [|discriminate].
    simpl in Hes. destruct (step w0 e) as [w1|] eqn:E1; [|discriminate].
    inversion Hes; subst. eauto.
Qed.

(** ** The state invariant is inductive *)

Lemma state_invariant_fields (w : World) :
  state_invariant w = true <->
  (isRecording w = true ->
     videoBlob w = None /\ current_session_active w = true) /\
  (isRecording w = false -> uploading w = true -> videoBlob w <> None).
Proof.
  unfold state_invariant, controllerState, has_artifact.
  destruct (isRecording w), (uploading w), (videoBlob w),
    (current_session_active w), (stream_live w); simpl;
    intuition (discriminate || congruence).
Qed.

Lemma current_session_active_snoc (w : World) (r : MediaRecorder) :
  current_session_active w = true ->
  match mediaRecorderRef w with
  | Some id =>
      match (recorders w ++ [r]) !! id with
      | Some r => rec_active r
      | None => false
      end
  | None => false
  end = true.
Proof.
  unfold current_session_active.
  destruct (mediaRecorderRef w) as [id|]; [|discriminate].
  destruct (recorders w !! id) as [r0|] eqn:E; [|discriminate].
  intros Ha. now rewrite (lookup_app_l_Some _ _ _ _ E).
Qed.

Lemma lookup_snoc_new {A} (l : list A) (x : A) :
  (l ++ [x]) !! length l = Some x.
Proof. now apply list_lookup_middle. Qed.

Lemma startRecording_try_invariant (stream : MediaStream) (mk : RecorderOutcome)
    (w : World) :
  state_invariant w = true ->
  state_invariant (startRecording_try stream mk w) = true.
Proof.
  rewrite !state_invariant_fields. intros [Hrec Hup].
  destruct mk; simpl.
  - split; assumption.
  - split; [|assumption].
    intros H. destruct (Hrec H) as [Hb Hc]. split; [assumption|].
    unfold current_session_active. simpl.
    now apply current_session_active_snoc.
  - split; [|discriminate].
    intros _. split; [reflexivity|].
    unfold current_session_active. simpl.
    now rewrite lookup_snoc_new.
Qed.

Lemma stopRecording_invariant (w : World) :
  state_invariant w = true -> state_invariant (stopRecording w) = true.
Proof.
  rewrite !state_invariant_fields. intros [Hrec Hup].
  unfold stopRecording, MediaRecorder_stop.
  destruct (mediaRecorderRef w) as [id|] eqn:Eid; [|split; assumption].
  destruct (isRecording w) eqn:Erec; [|rewrite Erec; split; assumption].
  destruct (recorders w !! id) as [r|] eqn:Er;
    [|rewrite Erec; split; assumption].
  destruct (rec_phase r); try (rewrite Erec; split; assumption).
  simpl. rewrite Erec. split; [|discriminate].
  intros _. destruct (Hrec eq_refl) as [Hb _]. split; [assumption|].
  unfold current_session_active. simpl. rewrite Eid.
  rewrite list_lookup_insert_eq; [reflexivity|].
  eapply lookup_lt_Some; eassumption.
Qed.

Lemma handleUpload_invariant (uuid : string) (w : World) :
  state_invariant w = true -> state_invariant (handleUpload uuid w) = true.
Proof.
  rewrite !state_invariant_fields. intros [Hrec Hup].
  unfold handleUpload.
  destruct (videoBlob w) as [blob|] eqn:Eb; simpl.
  - rewrite Eb. split; [assumption|]. intros _ _. discriminate.
  - rewrite Eb. split; assumption.
Qed.

Lemma handleUpload_resume_invariant (fileName filePath : string)
    (response : UploadResponse) (publicUrl : string) (w : World) :
  state_invariant w = true ->
  state_invariant
    (handleUpload_resume fileName filePath response publicUrl w) = true.
Proof.
  rewrite !state_invariant_fields. intros [Hrec Hup].
  destruct response as [[error|]|reason]; simpl;
    (split; [|discriminate]); intros H; destruct (Hrec H); now split.
Qed.

Lemma startStream_resume_invariant (granted : bool) (w : World) :
  state_invariant w = true ->
  state_invariant (fst (startStream_resume granted w)) = true.
Proof.
  rewrite !state_invariant_fields. intros Hinv.
  unfold startStream_resume.
  destruct granted; simpl; [|assumption].
  destruct (videoRef w); simpl; assumption.
Qed.

Lemma state_invariant_step (w w' : World) (e : Event) :
  state_invariant w = true -> step w e = Some w' ->
  state_invariant w' = true.
Proof.
  intros Hinv Hstep. destruct e; simpl in Hstep.
  - inversion Hstep; subst. unfold startRecording.
    destruct (current_srcObject w).
    + now apply startRecording_try_invariant.
    + apply state_invariant_fields. apply state_invariant_fields in Hinv.
      exact Hinv.
  - inversion Hstep; subst. now apply stopRecording_invariant.
  - inversion Hstep; subst. now apply handleUpload_invariant.
  - destruct (recorders w !! id) as [r|]; [|discriminate].
    destruct (rec_active r); [|discriminate].
    inversion Hstep; subst. unfold ondataavailable.
    destruct (Nat.ltb 0 (blob_size data)); [|assumption].
    apply state_invariant_fields. apply state_invariant_fields in Hinv.
    exact Hinv.
  - destruct (recorders w !! id) as [r|]; [|discriminate].
    destruct (rec_active r); [|discriminate].
    inversion Hstep; subst.
    apply state_invariant_fields. simpl. split; [discriminate|].
    intros _ _. discriminate.
  - destruct (suspended w !! i) as [[k|]|] eqn:Es; try discriminate.
    pose proof (startStream_resume_invariant granted
                  (set_suspended (delete i (suspended w)) w)) as Hres.
    destruct (startStream_resume granted _) as [w1 newStream].
    simpl in Hres.
    assert (Hw1 : state_invariant w1 = true).
    { apply Hres. apply state_invariant_fields.
      apply state_invariant_fields in Hinv. exact Hinv. }
    destruct k; inversion Hstep; subst; [assumption|].
    unfold startRecording_resume. destruct newStream; [|assumption].
    now apply startRecording_try_invariant.
  - destruct (suspended w !! i) as [[k|fileName filePath]|] eqn:Es;
      try discriminate.
    inversion Hstep; subst.
    apply handleUpload_resume_invariant.
    apply state_invariant_fields. apply state_invariant_fields in Hinv.
    exact Hinv.
Qed.

Lemma state_invariant_reachable (w : World) :
  reachable w -> state_invariant w = true.
Proof.
  revert w.
  apply (reachable_ind' (fun w => state_invariant w = true)); [reflexivity|].
  intros; eapply state_invariant_step; eassumption.
Qed.

(** ** A recording session *)

Lemma blob_size_new_Blob (parts : list Blob) (type : string) :
  blob_size (new_Blob parts type) = list_sum (map blob_size parts).
Proof.
  unfold blob_size, new_Blob. simpl.
  rewrite List.length_concat, List.map_map. reflexivity.
Qed.


Lemma filter_nonempty_all (segs : list Blob) :
  Forall (fun data => 0 < blob_size data) segs ->
  List.filter nonempty segs = segs.
Proof.
  intros H. apply List.forallb_filter_id, forallb_forall.
  intros d Hd. rewrite Forall_forall in H.
  apply Nat.ltb_lt, H. now apply list_elem_of_In.
Qed.

(** While the current session's events are dispatched, the session stays
    active and current, no artifact appears, and the buffer grows by the
    segments of positive size. *)
Lemma session_events_run (es : list SessionEvent) :
  forall (w : World) (id : nat) (r : MediaRecorder),
    mediaRecorderRef w = Some id -> isRecording w = true ->
    recorders w !! id = Some r -> rec_active r = true ->
    exists w1 r1,
      run w (map (session_event id) es) = Some w1 /\
      mediaRecorderRef w1 = Some id /\ isRecording w1 = true /\
      recorders w1 !! id = Some r1 /\ rec_active r1 = true /\
      rec_mimeType r1 = rec_mimeType r /\ rec_stream r1 = rec_stream r /\
      videoBlob w1 = videoBlob w /\
      recordedChunksRef w1 =
        recordedChunksRef w ++ List.filter nonempty (segments es).
Proof.
  induction es as [|[data|] es IH]; intros w id r Href Hrec Hr Ha.
  - exists w, r. simpl. rewrite app_nil_r. repeat split; assumption.
  - cbn [map session_event run].
    rewrite (step_DataAvailable w id r data Hr Ha).
    destruct (IH (ondataavailable data w) id r) as (w1 & r1 & Hrun & H1);
      try (unfold ondataavailable; destruct (Nat.ltb 0 (blob_size data));
           assumption).
    exists w1, r1. split; [exact Hrun|].
    destruct H1 as (? & ? & ? & ? & ? & ? & Hb & Hc).
    repeat (split; [assumption|]).
    unfold ondataavailable in Hb, Hc. cbn [segments List.filter].
    unfold nonempty at 1.
    destruct (Nat.ltb 0 (blob_size data)); simpl in Hb, Hc.
    + split; [assumption|]. now rewrite Hc, <- app_assoc.
    + split; assumption.
  - cbn [map session_event run].
    change (step w StopRecording) with (Some (stopRecording w)).
    unfold stopRecording at 1. rewrite Href, Hrec.
    unfold MediaRecorder_stop at 1. rewrite Hr.
    destruct (rec_phase r) eqn:Ep.
    + unfold rec_active in Ha. rewrite Ep in Ha. discriminate.
    + set (r' := mkRecorder (rec_stream r) (rec_mimeType r) rs_stopping).
      destruct (IH (set_recorders (<[id := r']> (recorders w)) w) id r')
        as (w1 & r1 & Hrun & H1); try assumption; try reflexivity.
      { simpl. apply list_lookup_insert_eq. eapply lookup_lt_Some; eassumption. }
      exists w1, r1. split; [exact Hrun|]. exact H1.
    + destruct (IH w id r) as (w1 & r1 & Hrun & H1); try assumption.
      exists w1, r1. split; [exact Hrun|]. exact H1.
Qed.

Lemma startRecording_Started (w : World) (stream : MediaStream) :
  current_srcObject w = Some stream ->
  startRecording Started w =
    startRecording_try stream Started w.
Proof. intros H. unfold startRecording. now rewrite H. Qed.

(** An event that constructs a recorder runs the [try] block of
    [startRecording] to its end, on the recorders there were. *)
Lemma constructs_recorder_step (w : World) (e : Event) :
  constructs_recorder w e = true ->
  exists stream w',
    step w e = Some (startRecording_try stream Started w') /\
    recorders w' = recorders w.
Proof.
  intros H. destruct e; simpl in H; try discriminate.
  - destruct mk; try discriminate.
    destruct (current_srcObject w) as [stream|] eqn:Esrc; [|discriminate].
    exists stream, w. split; [|reflexivity].
    simpl. now rewrite (startRecording_Started w stream Esrc).
  - destruct granted; [|discriminate]. destruct mk; try discriminate.
    destruct (suspended w !! i) as [[[]|]|] eqn:Es; try discriminate.
    destruct (videoRef w) as [v|] eqn:Ev; [|discriminate].
    eexists _, _. split.
    + simpl. rewrite Es. unfold startStream_resume. fields. rewrite Ev.
      reflexivity.
    + reflexivity.
Qed.

(** The example scenario: the artifact has 12288 bytes and the declared
    base type, and the status after the upload names the object and its
    URL. *)
Example example_scenario_outcome :
  option_map
    (fun w => option_map (fun b => (N.of_nat (blob_size b), blob_type b))
                (videoBlob w))
    (run mounted (take 6 example_scenario))
    = Some (Some (12288%N, "video/webm")) /\
  option_map statusMessage (run mounted (take 6 example_scenario)) =
    Some "Recording finished. Size: 0.01 MB. Ready to upload." /\
  option_map statusMessage (run mounted example_scenario) =
    Some "Upload successful! File: 0b9f.webm. Public URL: https://cdn/0b9f.webm".
Proof. vm_compute. repeat split. Qed.

(** ** Reachable worlds *)

Lemma videoRef_startRecording_try (stream : MediaStream) (mk : RecorderOutcome)
    (w : World) :
  videoRef (startRecording_try stream mk w) = videoRef w.
Proof. now destruct mk. Qed.

Lemma videoRef_step (w w' : World) (e : Event) :
  is_Some (videoRef w) -> step w e = Some w' -> is_Some (videoRef w').
Proof.
  intros Hv Hstep. destruct e; simpl in Hstep.
  - inversion Hstep; subst. unfold startRecording.
    destruct (current_srcObject w);
      [now rewrite videoRef_startRecording_try | assumption].
  - inversion Hstep; subst. unfold stopRecording, MediaRecorder_stop.
    destruct (mediaRecorderRef w) as [id|]; [|assumption].
    destruct (isRecording w); [|assumption].
    destruct (recorders w !! id) as [r|]; [|assumption].
    destruct (rec_phase r); assumption.
  - inversion Hstep; subst. unfold handleUpload.
    destruct (videoBlob w); assumption.
  - destruct (recorders w !! id) as [r|]; [|discriminate].
    destruct (rec_active r); [|discriminate].
    inversion Hstep; subst. unfold ondataavailable.
    destruct (Nat.ltb 0 (blob_size data)); assumption.
  - destruct (recorders w !! id) as [r|]; [|discriminate].
    destruct (rec_active r); [|discriminate].
    inversion Hstep; subst. assumption.
  - destruct (suspended w !! i) as [[k|]|]; try discriminate.
    unfold startStream_resume in Hstep. simpl in Hstep.
    destruct granted.
    + destruct (videoRef w) eqn:Ev; [|now destruct Hv].
      destruct k; inversion Hstep; subst; [now eexists|].
      simpl. rewrite videoRef_startRecording_try. now eexists.
    + destruct k; inversion Hstep; subst; assumption.
  - destruct (suspended w !! i) as [[k|fileName filePath]|]; try discriminate.
    inversion Hstep; subst.
    destruct response as [[error|]|reason]; assumption.
Qed.

Lemma videoRef_reachable (w : World) : reachable w -> is_Some (videoRef w).
Proof.
  revert w. apply (reachable_ind' (fun w => is_Some (videoRef w))).
  - now eexists.
  - intros; eapply videoRef_step; eassumption.
Qed.

Lemma not_recording_with_artifact (w : World) (blob : Blob) :
  reachable w -> videoBlob w = Some blob -> isRecording w = false.
Proof.
  intros Hr Hb. apply state_invariant_reachable, state_invariant_fields in Hr.
  destruct Hr as [Hrec _]. destruct (isRecording w); [|reflexivity].
  destruct (Hrec eq_refl) as [Hnone _]. congruence.
Qed.

(** ** Upload *)

Lemma prefix_refl (s : string) : String.prefix s s = true.
Proof.
  induction s as [|c s IH]; simpl; [reflexivity|].
  destruct (ascii_dec c c); [assumption|congruence].
Qed.

Lemma prefix_append (s t : string) : String.prefix s (s +:+ t) = true.
Proof.
  induction s as [|c s IH]; simpl; [now destruct t|].
  destruct (ascii_dec c c); [assumption|congruence].
Qed.

Lemma includes_append (pre s : string) : Js.includes (pre +:+ s) s = true.
Proof.
  induction pre as [|c pre IH]; simpl.
  - destruct s; simpl; [reflexivity|]. rewrite prefix_refl.
    destruct (ascii_dec a a); [reflexivity|congruence].
  - rewrite IH. apply orb_true_r.
Qed.

Lemma handleUpload_artifact (uuid : string) (w : World) (blob : Blob) :
  videoBlob w = Some blob ->
  handleUpload uuid w =
    let fileName := uuid +:+ "." +:+ fileExt_of blob in
    let filePath := "public_videos/" +:+ fileName in
    set_suspended (suspended w ++ [AwaitUpload fileName filePath])
      (set_storageLog
         (storageLog w ++ [Upload bucket filePath blob "3600" false])
         (setStatusMessage "Uploading to Supabase..." (setUploading true w))).
Proof. intros H. unfold handleUpload. now rewrite H. Qed.

(** ** Active sessions *)

Lemma count_active_snoc (l : list MediaRecorder) (r : MediaRecorder) :
  length (List.filter rec_active (l ++ [r])) =
    length (List.filter rec_active l) + (if rec_active r then 1 else 0).
Proof.
  rewrite List.filter_app, length_app. simpl. now destruct (rec_active r).
Qed.

Lemma count_active_insert (l : list MediaRecorder) (id : nat)
    (r r' : MediaRecorder) :
  l !! id = Some r ->
  length (List.filter rec_active (<[id := r']> l))
    + (if rec_active r then 1 else 0) =
  length (List.filter rec_active l) + (if rec_active r' then 1 else 0).
Proof.
  intros Hr.
  rewrite insert_take_drop by (eapply lookup_lt_Some; eassumption).
  rewrite <- (take_drop_middle l id r Hr) at 3.
  rewrite !List.filter_app, !length_app. simpl.
  destruct (rec_active r), (rec_active r'); simpl; lia.
Qed.

Lemma single_session_fields (w w' : World) :
  isRecording w' = isRecording w -> recorders w' = recorders w ->
  single_session w -> single_session w'.
Proof.
  unfold single_session, active_sessions. intros -> ->. trivial.
Qed.

Lemma single_session_try (stream : MediaStream) (mk : RecorderOutcome)
    (w : World) :
  (mk = Started -> isRecording w = false) ->
  single_session w -> single_session (startRecording_try stream mk w).
Proof.
  intros Hg [H0 H1].
  destruct mk; unfold single_session, active_sessions in *;
    unfold startRecording_try; fields.
  - exact (conj H0 H1).
  - rewrite count_active_snoc. simpl. rewrite Nat.add_0_r. exact (conj H0 H1).
  - rewrite count_active_snoc. simpl. rewrite (H0 (Hg eq_refl)).
    split; [discriminate|lia].
Qed.

Lemma single_session_step (w w' : World) (e : Event) :
  constructs_recorder w e && isRecording w = false ->
  single_session w -> step w e = Some w' -> single_session w'.
Proof.
  intros Hg Hs Hstep. destruct e; simpl in Hstep.
  - inversion Hstep; subst. unfold startRecording.
    destruct (current_srcObject w) eqn:Esrc.
    + apply single_session_try; [|assumption].
      intros ->. simpl in Hg. now rewrite Esrc in Hg.
    + now apply (single_session_fields w).
  - inversion Hstep; subst. unfold stopRecording, MediaRecorder_stop.
    destruct (mediaRecorderRef w) as [id|]; [|assumption].
    destruct (isRecording w) eqn:Erec; [|assumption].
    destruct (recorders w !! id) as [r|] eqn:Er; [|assumption].
    destruct (rec_phase r) eqn:Ep; try assumption.
    destruct Hs as [H0 H1]. unfold single_session, active_sessions in *.
    fields. rewrite Erec.
    pose proof (count_active_insert (recorders w) id r
                  (mkRecorder (rec_stream r) (rec_mimeType r) rs_stopping) Er) as Hc.
    assert (Ha : rec_active r = true) by (unfold rec_active; now rewrite Ep).
    rewrite Ha in Hc. cbn [rec_active rec_phase] in Hc.
    split; [discriminate|lia].
  - inversion Hstep; subst. apply (single_session_fields w); [| |assumption];
      unfold handleUpload; now destruct (videoBlob w).
  - destruct (recorders w !! id) as [r|]; [|discriminate].
    destruct (rec_active r); [|discriminate].
    inversion Hstep; subst. apply (single_session_fields w); [| |assumption];
      unfold ondataavailable; now destruct (Nat.ltb 0 (blob_size data)).
  - destruct (recorders w !! id) as [r|] eqn:Er; [|discriminate].
    destruct (rec_active r) eqn:Ea; [|discriminate].
    inversion Hstep; subst.
    destruct Hs as [H0 H1]. unfold single_session, active_sessions in *.
    unfold onstop, stop_tracks. fields.
    pose proof (count_active_insert (recorders w) id r
                  (mkRecorder (rec_stream r) (rec_mimeType r) rs_inactive) Er) as Hc.
    rewrite Ea in Hc. simpl in Hc.
    split; [intros _|]; lia.
  - destruct (suspended w !! i) as [[k|]|] eqn:Es; try discriminate.
    unfold startStream_resume in Hstep. fields in Hstep.
    destruct granted.
    + destruct (videoRef w) eqn:Ev.
      * destruct k; inversion Hstep; subst.
        -- now apply (single_session_fields w).
        -- apply single_session_try.
           ++ intros ->. simpl in Hg. rewrite Es, Ev in Hg. exact Hg.
           ++ now apply (single_session_fields w).
      * destruct k; inversion Hstep; subst; now apply (single_session_fields w).
    + destruct k; inversion Hstep; subst; now apply (single_session_fields w).
  - destruct (suspended w !! i) as [[k|fileName filePath]|]; try discriminate.
    inversion Hstep; subst.
    apply (single_session_fields w); [| |assumption];
      now destruct response as [[error|]|reason].
Qed.

Lemma single_session_run_guarded (es : list Event) :
  forall w w', single_session w -> run_guarded w es = Some w' ->
    single_session w'.
Proof.
  induction es as [|e es IH]; intros w w' Hs Hrun; simpl in Hrun.
  - now inversion Hrun; subst.
  - destruct (constructs_recorder w e && isRecording w) eqn:Hg; [discriminate|].
    destruct (step w e) as [w1|] eqn:Hstep; [|discriminate].
    eapply IH; [|eassumption].
    eapply single_session_step; eassumption.
Qed.

(** C3 (as amended).  [startRecording] does not look at the state: when
    it constructs and starts a recorder, recording or not, it adds an
    active session to the sessions that are active, makes it the current
    one and empties the chunk buffer.  At most one session is active at a
    time in the runs in which a recorder is constructed only while
    [isRecording] is false. *)
Theorem startRecording_unguarded :
  (forall (w : World) (e : Event),
     constructs_recorder w e = true ->
     exists w',
       step w e = Some w' /\
       active_sessions w' = S (active_sessions w) /\
       mediaRecorderRef w' = Some (length (recorders w)) /\
       recordedChunksRef w' = [] /\
       isRecording w' = true) /\
  (forall (es : list Event) (w : World),
     run_guarded mounted es = Some w -> active_sessions w <= 1).
Proof.
  split.
  - intros w e He.
    destruct (constructs_recorder_step w e He) as (stream & w0 & Hstep & Hrecs).
    eexists. split; [exact Hstep|].
    unfold active_sessions, startRecording_try. fields.
    rewrite count_active_snoc, Hrecs. simpl.
    repeat split. lia.
  - intros es w Hrun.
    apply (single_session_run_guarded es mounted w); [|assumption].
    split; [reflexivity|]. unfold active_sessions. simpl. lia.
Qed.

Lemma startRecording_unguarded_witness :
  (exists w',
     step (after [UserMediaSettled 0 true Started; StartRecording Started])
       (StartRecording Started) = Some w' /\
     active_sessions w' = 2 /\ mediaRecorderRef w' = Some 1 /\
     recordedChunksRef w' = [] /\ isRecording w' = true) /\
  active_sessions (after one_take) <= 1.
Proof.
  destruct startRecording_unguarded as [Hstart Hguard].
  split.
  - apply (Hstart (after [UserMediaSettled 0 true Started; StartRecording Started])
             (StartRecording Started)).
    vm_compute. reflexivity.
  - apply (Hguard one_take). vm_compute. reflexivity.
Defined.

(** C3, the claim as stated fails: [startRecording] invoked while the
    controller is Recording is not rejected.  Two sessions are active
    afterwards, the current recorder is the second one, and the run in
    which this happens is not among the guarded ones. *)
Lemma startRecording_while_recording :
  option_map controllerState
    (run mounted [UserMediaSettled 0 true Started; StartRecording Started])
    = Some Recording /\
  option_map active_sessions
    (run mounted [UserMediaSettled 0 true Started; StartRecording Started])
    = Some 1 /\
  option_map mediaRecorderRef
    (run mounted [UserMediaSettled 0 true Started; StartRecording Started])
    = Some (Some 0) /\
  option_map active_sessions (run mounted start_twice) = Some 2 /\
  option_map mediaRecorderRef (run mounted start_twice) = Some (Some 1) /\
  run_guarded mounted start_twice = None.
Proof. repeat split. Qed.

(** ** The state invariant *)

Lemma state_invariant_spec (w : World) :
  state_invariant w = true <-> StateInvariant w.
Proof.
  unfold state_invariant, StateInvariant, has_artifact, current_session_active.
  destruct (controllerState w); try tauto.
  - destruct (videoBlob w) as [blob|]; simpl.
    + split; [discriminate|]. intros [H _]. discriminate.
    + destruct (mediaRecorderRef w) as [id|].
      * destruct (recorders w !! id) as [r|] eqn:Er.
        -- split.
           ++ intros Ha. split; [reflexivity|]. now exists id, r.
           ++ intros [_ (id' & r' & Hid & Hr & Ha)].
              inversion Hid; subst. congruence.
        -- split; [discriminate|].
           intros [_ (id' & r' & Hid & Hr & Ha)].
           inversion Hid; subst. congruence.
      * split; [discriminate|].
        intros [_ (id' & r' & Hid & _)]. discriminate.
  - destruct (videoBlob w); split; try congruence; discriminate.
  - destruct (videoBlob w); split; try congruence; discriminate.
Qed.

(** C4 (as amended).  The invariant of the controller state, the state
    being read as the render reads it, [isRecording] first: in Recorded
    and in Uploading there is an artifact; in Recording there is none and
    the current recorder's session is active.  It holds when the component
    is mounted, every event (startRecording, stopRecording, a delivered
    segment, the stop finalization, handleUpload and its completion, the
    completion of a stream acquisition) preserves it from any world, and
    so it holds in every reachable world.  On the fields of a reachable
    world: while [isRecording] is true there is no artifact and the
    current recorder's session is active; while [isRecording] is false, a
    raised [uploading] flag comes with an artifact. *)
Theorem controller_state_invariant :
  StateInvariant mounted /\
  (forall (w w' : World) (e : Event),
     StateInvariant w -> step w e = Some w' -> StateInvariant w') /\
  (forall w : World, reachable w -> StateInvariant w) /\
  (forall w : World,
     reachable w ->
     (isRecording w = true ->
      videoBlob w = None /\
      exists id r,
        mediaRecorderRef w = Some id /\ recorders w !! id = Some r /\
        rec_active r = true) /\
     (isRecording w = false -> uploading w = true -> videoBlob w <> None)).
Proof.
  split; [|split; [|split]].
  - now apply state_invariant_spec.
  - intros w w' e Hinv Hstep. apply state_invariant_spec.
    apply state_invariant_spec in Hinv.
    eapply state_invariant_step; eassumption.
  - intros w Hreach. now apply state_invariant_spec, state_invariant_reachable.
  - intros w Hreach.
    apply state_invariant_reachable, state_invariant_fields in Hreach.
    destruct Hreach as [Hrec Hup]. split; [|exact Hup].
    intros H. destruct (Hrec H) as [Hblob Hact]. split; [assumption|].
    unfold current_session_active in Hact.
    destruct (mediaRecorderRef w) as [id|]; [|discriminate].
    destruct (recorders w !! id) as [r|] eqn:Er; [|discriminate].
    now exists id, r.
Qed.

Lemma controller_state_invariant_witness :
  StateInvariant (after one_take) /\
  StateInvariant (after [UserMediaSettled 0 true Started; StartRecording Started]) /\
  videoBlob (after (one_take ++ [HandleUpload "0b9f"])) <> None /\
  videoBlob (after grant_during_upload) = None.
Proof.
  destruct controller_state_invariant as (_ & _ & Hreach & Hfields).
  split; [|split; [|split]].
  - apply Hreach. exists one_take. vm_compute. reflexivity.
  - apply Hreach.
    exists [UserMediaSettled 0 true Started; StartRecording Started].
    vm_compute. reflexivity.
  - apply (Hfields (after (one_take ++ [HandleUpload "0b9f"]))).
    + exists (one_take ++ [HandleUpload "0b9f"]). vm_compute. reflexivity.
    + vm_compute. reflexivity.
    + vm_compute. reflexivity.
  - apply (Hfields (after grant_during_upload)).
    + exists grant_during_upload. vm_compute. reflexivity.
    + vm_compute. reflexivity.
Defined.

(** C4, the claim as stated fails when Uploading is the state in which the
    [uploading] flag raised by [handleUpload] is up.  The start button is
    clicked twice before any stream is there; a take is made on the first
    stream granted and handed to [handleUpload]; the second stream is
    granted while the upload is awaited, and [startRecording] resumes and
    clears the artifact.  Every handler was invoked through the rendered
    controls; the upload is under way, [uploading] is true, and there is
    no artifact. *)
Lemma uploading_without_artifact :
  run_ui mounted grant_during_upload = Some (after grant_during_upload) /\
  uploading (after grant_during_upload) = true /\
  uploads_in_flight (after grant_during_upload) = 1 /\
  suspended (after grant_during_upload) =
    [AwaitUserMedia ResultDropped;
     AwaitUpload "0b9f.webm" "public_videos/0b9f.webm"] /\
  videoBlob (after grant_during_upload) = None /\
  isRecording (after grant_during_upload) = true /\
  controllerState (after grant_during_upload) = Recording.
Proof. vm_compute. repeat split. Qed.

(** C5.  An upload of an artifact names the object with the random
    identifier, a dot, and the extension "webm" when the artifact's MIME
    type contains "webm" and "mp4" otherwise; it issues one write to the
    container "videos", under "public_videos/", with [upsert] false; when
    the write succeeds, the public URL of that object is asked for, and
    when it fails, no further storage call is made. *)
Theorem upload_object_name_and_write
    (w : World) (blob : Blob) (uuid publicUrl : string) :
  videoBlob w = Some blob ->
  let fileExt := if Js.includes (blob_type blob) "webm" then "webm" else "mp4" in
  let fileName := uuid +:+ "." +:+ fileExt in
  let filePath := "public_videos/" +:+ fileName in
  let w1 := handleUpload uuid w in
  let i := length (suspended w) in
  storageLog w1 = storageLog w ++ [Upload "videos" filePath blob "3600" false] /\
  suspended w1 = suspended w ++ [AwaitUpload fileName filePath] /\
  (exists w2,
     step w1 (UploadSettled i (Resolved None) publicUrl) = Some w2 /\
     storageLog w2 = storageLog w1 ++ [GetPublicUrl "videos" filePath] /\
     statusMessage w2 =
       "Upload successful! File: " +:+ fileName +:+ ". Public URL: "
         +:+ publicUrl) /\
  (forall error : StorageError, exists w2 w2',
     step w1 (UploadSettled i (Resolved (Some error)) publicUrl) = Some w2 /\
     step w1 (UploadSettled i (Rejected error) publicUrl) = Some w2' /\
     storageLog w2 = storageLog w1 /\ storageLog w2' = storageLog w1).
Proof.
  intros Hblob fileExt fileName filePath w1 i.
  assert (Hs : suspended w1 !! i = Some (AwaitUpload fileName filePath)).
  { subst w1. rewrite (handleUpload_artifact uuid w blob Hblob).
    cbv zeta. fields. now apply list_lookup_middle. }
  split; [|split; [|split]].
  - subst w1. now rewrite (handleUpload_artifact uuid w blob Hblob).
  - subst w1. now rewrite (handleUpload_artifact uuid w blob Hblob).
  - eexists. split; [exact (step_UploadSettled w1 i _ _ _ _ Hs)|].
    split; reflexivity.
  - intros error. eexists _, _.
    split; [exact (step_UploadSettled w1 i _ _ _ _ Hs)|].
    split; [exact (step_UploadSettled w1 i _ _ _ _ Hs)|].
    split; reflexivity.
Qed.

Lemma upload_object_name_and_write_witness :
  let w := after one_take in
  let w1 := handleUpload "0b9f" w in
  storageLog w1 =
    storageLog w ++
      [Upload "videos" "public_videos/0b9f.webm"
         (mkBlob (repeat Byte.x2a 8) "video/webm") "3600" false] /\
  exists w2,
    step w1 (UploadSettled 0 (Resolved None) "https://cdn/0b9f.webm") = Some w2 /\
    storageLog w2 =
      storageLog w1 ++ [GetPublicUrl "videos" "public_videos/0b9f.webm"].
Proof.
  intros w w1.
  destruct (upload_object_name_and_write w
              (mkBlob (repeat Byte.x2a 8) "video/webm") "0b9f"
              "https://cdn/0b9f.webm")
    as (Hlog & _ & (w2 & Hstep & Hlog2 & _) & _).
  - vm_compute. reflexivity.
  - split; [exact Hlog|]. exists w2. split; [|exact Hlog2].
    rewrite <- Hstep. vm_compute. reflexivity.
Defined.

(** C6.  [handleUpload] without an artifact only sets the status message:
    no storage call is issued, no call is left suspended, and the
    uploading flag, the artifact, the recording flag and everything else
    are as before. *)
Theorem handleUpload_without_artifact (w : World) (uuid : string) :
  videoBlob w = None ->
  let w' := handleUpload uuid w in
  step w (HandleUpload uuid) = Some w' /\
  w' = setStatusMessage "No video to upload." w /\
  statusMessage w' = "No video to upload." /\
  storageLog w' = storageLog w /\ suspended w' = suspended w /\
  uploading w' = uploading w /\ videoBlob w' = videoBlob w /\
  isRecording w' = isRecording w /\
  mediaRecorderRef w' = mediaRecorderRef w /\
  recordedChunksRef w' = recordedChunksRef w /\
  videoRef w' = videoRef w /\ recorders w' = recorders w /\
  streams w' = streams w.
Proof.
  intros Hblob w'.
  assert (Heq : w' = setStatusMessage "No video to upload." w).
  { subst w'. unfold handleUpload. now rewrite Hblob. }
  split; [reflexivity|]. split; [exact Heq|].
  rewrite Heq. repeat split.
Qed.

Lemma handleUpload_without_artifact_witness :
  step camera_ready (HandleUpload "0b9f") =
    Some (setStatusMessage "No video to upload." camera_ready) /\
  storageLog (handleUpload "0b9f" camera_ready) = [].
Proof.
  destruct (handleUpload_without_artifact camera_ready "0b9f" eq_refl)
    as (Hstep & Heq & _ & Hlog & _).
  split.
  - rewrite Hstep, Heq. reflexivity.
  - rewrite Hlog. reflexivity.
Defined.

(** C7.  [stopRecording] outside the Recording state changes nothing: the
    world after it is the world before it, the recorders included. *)
Theorem stopRecording_when_not_recording (w : World) :
  controllerState w <> Recording ->
  stopRecording w = w /\ step w StopRecording = Some w.
Proof.
  intros Hstate.
  assert (Hrec : isRecording w = false).
  { unfold controllerState in Hstate. destruct (isRecording w); congruence. }
  assert (Heq : stopRecording w = w).
  { unfold stopRecording. rewrite Hrec. now destruct (mediaRecorderRef w). }
  split; [exact Heq|]. simpl. now rewrite Heq.
Qed.

Lemma stopRecording_when_not_recording_witness :
  stopRecording (after one_take) = after one_take /\
  step (after one_take) StopRecording = Some (after one_take).
Proof.
  apply (stopRecording_when_not_recording (after one_take)).
  vm_compute. discriminate.
Defined.

(** ** The recorders of a reachable world *)

Lemma declared_try (stream : MediaStream) (mk : RecorderOutcome) (w : World) :
  Forall declared (recorders w) ->
  Forall declared (recorders (startRecording_try stream mk w)).
Proof.
  intros H. destruct mk; unfold startRecording_try; fields; try assumption;
    apply Forall_app; split; try assumption; now repeat constructor.
Qed.

Lemma declared_insert (l : list MediaRecorder) (id : nat) (r : MediaRecorder)
    (phase : RecorderPhase) :
  Forall declared l -> l !! id = Some r ->
  Forall declared (<[id := mkRecorder (rec_stream r) (rec_mimeType r) phase]> l).
Proof.
  intros Hl Hr. apply Forall_insert; [assumption|].
  unfold declared. simpl.
  rewrite Forall_lookup in Hl. exact (Hl id r Hr).
Qed.

Lemma declared_step (w w' : World) (e : Event) :
  Forall declared (recorders w) -> step w e = Some w' ->
  Forall declared (recorders w').
Proof.
  intros Hd Hstep. destruct e; simpl in Hstep.
  - inversion Hstep; subst. unfold startRecording.
    destruct (current_srcObject w); [now apply declared_try | assumption].
  - inversion Hstep; subst. unfold stopRecording, MediaRecorder_stop.
    destruct (mediaRecorderRef w) as [id|]; [|assumption].
    destruct (isRecording w); [|assumption].
    destruct (recorders w !! id) as [r|] eqn:Er; [|assumption].
    destruct (rec_phase r); try assumption.
    fields. now apply declared_insert.
  - inversion Hstep; subst. unfold handleUpload.
    destruct (videoBlob w); assumption.
  - destruct (recorders w !! id) as [r|]; [|discriminate].
    destruct (rec_active r); [|discriminate].
    inversion Hstep; subst. unfold ondataavailable.
    destruct (Nat.ltb 0 (blob_size data)); assumption.
  - destruct (recorders w !! id) as [r|] eqn:Er; [|discriminate].
    destruct (rec_active r); [|discriminate].
    inversion Hstep; subst. unfold onstop, stop_tracks. fields.
    now apply declared_insert.
  - destruct (suspended w !! i) as [[k|]|]; try discriminate.
    unfold startStream_resume in Hstep. fields in Hstep.
    destruct granted.
    + destruct (videoRef w).
      * destruct k; inversion Hstep; subst; [assumption|].
        now apply declared_try.
      * destruct k; inversion Hstep; subst; assumption.
    + destruct k; inversion Hstep; subst; assumption.
  - destruct (suspended w !! i) as [[k|fileName filePath]|]; try discriminate.
    inversion Hstep; subst.
    destruct response as [[error|]|reason]; assumption.
Qed.

Lemma declared_reachable (w : World) (id : nat) (r : MediaRecorder) :
  reachable w -> recorders w !! id = Some r ->
  rec_mimeType r = options_mimeType.
Proof.
  intros Hreach Hr.
  assert (H : Forall declared (recorders w)).
  { clear Hr. revert w Hreach.
    apply (reachable_ind' (fun w => Forall declared (recorders w))).
    - constructor.
    - intros; eapply declared_step; eassumption. }
  rewrite Forall_lookup in H. exact (H id r Hr).
Qed.

(** C8.  A stop finalization with an empty chunk buffer goes through the
    same handler as any other: it sets an artifact of zero bytes whose
    type is the base type of the declared encoding, "video/webm", lowers
    the recording flag and reports the size, 0.00 MB. *)
Theorem empty_recording_artifact (w : World) (id : nat) (r : MediaRecorder) :
  reachable w -> recorders w !! id = Some r -> rec_active r = true ->
  recordedChunksRef w = [] ->
  exists w' artifact,
    step w (RecorderStopped id) = Some w' /\
    w' = onstop (mkRecorder (rec_stream r) (rec_mimeType r) rs_inactive)
           (set_recorders
              (<[id := mkRecorder (rec_stream r) (rec_mimeType r) rs_inactive]>
                 (recorders w)) w) /\
    videoBlob w' = Some artifact /\
    blob_bytes artifact = [] /\ blob_size artifact = 0 /\
    blob_type artifact = Js.split_head ";" options_mimeType /\
    blob_type artifact = "video/webm" /\
    isRecording w' = false /\
    statusMessage w' = "Recording finished. Size: 0.00 MB. Ready to upload.".
Proof.
  intros Hreach Hr Ha Hchunks.
  pose proof (declared_reachable w id r Hreach Hr) as Hmime.
  eexists _, _. split; [exact (step_RecorderStopped w id r Hr Ha)|].
  cbv zeta. split; [reflexivity|].
  unfold onstop, stop_tracks. fields. rewrite Hchunks, Hmime.
  repeat split.
Qed.

Lemma empty_recording_artifact_witness :
  let w := after [UserMediaSettled 0 true Started; StartRecording Started;
                  StopRecording] in
  exists w' artifact,
    step w (RecorderStopped 0) = Some w' /\
    w' = onstop (mkRecorder 0 options_mimeType rs_inactive)
           (set_recorders
              (<[0 := mkRecorder 0 options_mimeType rs_inactive]> (recorders w))
              w) /\
    videoBlob w' = Some artifact /\
    blob_bytes artifact = [] /\ blob_size artifact = 0 /\
    blob_type artifact = Js.split_head ";" options_mimeType /\
    blob_type artifact = "video/webm" /\
    isRecording w' = false /\
    statusMessage w' = "Recording finished. Size: 0.00 MB. Ready to upload.".
Proof.
  intros w.
  apply (empty_recording_artifact w 0 (mkRecorder 0 options_mimeType rs_stopping)).
  - exists [UserMediaSettled 0 true Started; StartRecording Started;
            StopRecording].
    vm_compute. reflexivity.
  - vm_compute. reflexivity.
  - reflexivity.
  - vm_compute. reflexivity.
Defined.

(** ** Storage client initialisation *)

(** C9 (as amended).  Evaluating [supabaseClient.ts]: when the endpoint or
    the key is undefined or empty, the module throws its own error and
    [createClient] is not called; when both are non-empty, [createClient]
    is called once, with these two values, and the module exports the
    client it returns, or fails with the error it throws. *)
Theorem supabase_configuration
    (Client : Type) (createClient : string -> string -> string + Client)
    (supabaseUrl supabaseAnonKey : option string) :
  (supabaseUrl = None \/ supabaseUrl = Some EmptyString \/
   supabaseAnonKey = None \/ supabaseAnonKey = Some EmptyString ->
   supabase createClient supabaseUrl supabaseAnonKey =
     mkEvaluation [] (Throws missing_configuration)) /\
  (forall url key : string,
     supabaseUrl = Some url -> supabaseAnonKey = Some key ->
     url <> EmptyString -> key <> EmptyString ->
     client_calls (supabase createClient supabaseUrl supabaseAnonKey) =
       [(url, key)] /\
     (forall client, createClient url key = inr client ->
        module_result (supabase createClient supabaseUrl supabaseAnonKey) =
          Exports client) /\
     (forall error, createClient url key = inl error ->
        module_result (supabase createClient supabaseUrl supabaseAnonKey) =
          Throws error)).
Proof.
  split.
  - intros [-> | [-> | [-> | ->]]]; unfold supabase; simpl; try reflexivity.
    + now rewrite orb_true_r.
    + now rewrite orb_true_r.
  - intros url key -> -> Hurl Hkey. unfold supabase. simpl.
    apply String.eqb_neq in Hurl, Hkey. rewrite Hurl, Hkey. simpl.
    split; [reflexivity|]. split; intros x ->; reflexivity.
Qed.

Lemma supabase_configuration_witness :
  supabase checking_createClient None (Some "anon-key") =
    mkEvaluation [] (Throws missing_configuration) /\
  client_calls
    (supabase checking_createClient (Some "https://project.supabase.co")
       (Some "anon-key")) =
    [("https://project.supabase.co", "anon-key")] /\
  module_result
    (supabase checking_createClient (Some "https://project.supabase.co")
       (Some "anon-key")) =
    Exports (mkClient "https://project.supabase.co" "anon-key").
Proof.
  split.
  - apply (supabase_configuration SupabaseClient checking_createClient None
             (Some "anon-key")).
    now left.
  - destruct (supabase_configuration SupabaseClient checking_createClient
                (Some "https://project.supabase.co") (Some "anon-key"))
      as [_ H].
    destruct (H "https://project.supabase.co" "anon-key")
      as (Hcalls & Hexports & _);
      [reflexivity | reflexivity | discriminate | discriminate |].
    split; [exact Hcalls|]. now apply Hexports.
Defined.

(** C9, the claim as stated fails: both configuration values are present
    and no client is created.  With one of them the empty string the
    module throws its own error without calling [createClient]; with a
    non-empty endpoint that [createClient] refuses, the module fails with
    the error of [createClient]. *)
Lemma supabase_present_values_throw :
  supabase checking_createClient (Some EmptyString) (Some "anon-key") =
    mkEvaluation [] (Throws missing_configuration) /\
  supabase checking_createClient (Some "https://project.supabase.co")
    (Some EmptyString) =
    mkEvaluation [] (Throws missing_configuration) /\
  supabase checking_createClient (Some "not-a-url") (Some "anon-key") =
    mkEvaluation [("not-a-url", "anon-key")]
      (Throws "Invalid supabaseUrl: Must be a valid HTTP or HTTPS URL.").
Proof. repeat split. Qed.

(** ** What a session's artifact is made of *)

Lemma none_active (l : list MediaRecorder) :
  length (List.filter rec_active l) = 0 ->
  forall id r, l !! id = Some r -> rec_active r = false.
Proof.
  induction l as [|r0 l IH]; intros Hlen id r Hr; [discriminate|].
  simpl in Hlen. destruct (rec_active r0) eqn:E0; [discriminate|].
  destruct id as [|id]; simpl in Hr.
  - now inversion Hr; subst.
  - now apply (IH Hlen id).
Qed.

Lemma only_active_started (w : World) (stream : MediaStream) :
  active_sessions w = 0 ->
  only_active (length (recorders w)) (startRecording_try stream Started w).
Proof.
  intros Hnone id' r Hr Ha. unfold startRecording_try in Hr. fields in Hr.
  destruct (decide (id' < length (recorders w))) as [Hlt|Hge].
  - rewrite lookup_app_l in Hr by assumption.
    rewrite (none_active _ Hnone id' r Hr) in Ha. discriminate.
  - apply lookup_lt_Some in Hr. rewrite length_app in Hr. simpl in Hr. lia.
Qed.







(** ** Sessions and uploads that are left undisturbed *)

(** Use the equations of a case analysis in [H], and close the case when
    [H] becomes absurd. *)
Ltac settle H :=
  unfold interferes, disturbs, constructor_returns, current_srcObject,
    has_artifact in H;
  repeat match goal with
         | Hx : ?x = _ |- _ =>
             assert_fails (constr_eq Hx H); progress rewrite Hx in H
         end;
  cbn [andb orb] in H; try discriminate H.

Lemma session_events_undisturbed (id : nat) (ses : list SessionEvent) :
  forall w,
    run_avoiding disturbs w (map (session_event id) ses) =
    run w (map (session_event id) ses).
Proof.
  induction ses as [|[data|] ses IH]; intros w; [reflexivity| |];
    cbn [map session_event run_avoiding run disturbs];
    (destruct (step w _); [apply IH|reflexivity]).
Qed.

Lemma delivered_session_events (id : nat) (ses : list SessionEvent) :
  delivered (map (session_event id) ses) = segments ses.
Proof.
  induction ses as [|[data|] ses IH]; simpl; congruence.
Qed.

Lemma list_sum_nonempty (segs : list Blob) :
  list_sum (map blob_size (List.filter nonempty segs)) =
  list_sum (map blob_size segs).
Proof.
  induction segs as [|d segs IH]; simpl; [reflexivity|].
  unfold nonempty at 1.
  destruct (Nat.ltb 0 (blob_size d)) eqn:E; simpl; [now rewrite IH|].
  apply Nat.ltb_ge in E. lia.
Qed.

(** What an event that constructs and finalizes no recorder leaves in
    place. *)
Lemma disturbs_frame (w w' : World) (e : Event) :
  disturbs w e = false -> step w e = Some w' ->
  isRecording w' = isRecording w /\
  mediaRecorderRef w' = mediaRecorderRef w /\
  (videoBlob w' = videoBlob w \/ videoBlob w' = None) /\
  length (recorders w') = length (recorders w) /\
  (forall id r,
     recorders w !! id = Some r ->
     exists r',
       recorders w' !! id = Some r' /\ rec_active r' = rec_active r /\
       rec_mimeType r' = rec_mimeType r /\ rec_stream r' = rec_stream r) /\
  match e with
  | DataAvailable _ data =>
      recordedChunksRef w' =
        recordedChunksRef w ++ List.filter nonempty [data]
  | _ => recordedChunksRef w' = recordedChunksRef w
  end.
Proof.
  intros Hd H.
  assert (Hsame : forall id r, recorders w !! id = Some r ->
            exists r', recorders w !! id = Some r' /\
              rec_active r' = rec_active r /\
              rec_mimeType r' = rec_mimeType r /\ rec_stream r' = rec_stream r)
    by (intros id r Hr; now exists r).
  step_cases H; settle Hd; fields;
    try (repeat split; auto; fail).
  - repeat split; auto; [now rewrite length_insert|].
    intros id r Hr.
    destruct (decide (id = n)) as [->|Hne].
    + rewrite list_lookup_insert_eq by (eapply lookup_lt_Some; eassumption).
      eexists. split; [reflexivity|].
      assert (r = m) by congruence. subst r.
      unfold rec_active. cbn [rec_phase rec_mimeType rec_stream].
      match goal with Hp : rec_phase m = _ |- _ => rewrite Hp end.
      repeat split.
    + rewrite list_lookup_insert_ne by congruence. now exists r.
  - repeat split; auto. cbn [List.filter]. unfold nonempty.
    match goal with Hp : Nat.ltb 0 _ = _ |- _ => now rewrite Hp end.
  - repeat split; auto. cbn [List.filter]. unfold nonempty.
    match goal with Hp : Nat.ltb 0 _ = _ |- _ => rewrite Hp end.
    now rewrite app_nil_r.
Qed.

(** Such an event keeps the one active session active and alone, and adds
    to the buffer nothing but a segment that session delivers. *)
Lemma undisturbed_step (id : nat) (w w' : World) (e : Event) (r : MediaRecorder) :
  disturbs w e = false -> step w e = Some w' ->
  only_active id w -> recorders w !! id = Some r -> rec_active r = true ->
  videoBlob w = None ->
  only_active id w' /\
  (exists r', recorders w' !! id = Some r' /\ rec_active r' = true) /\
  videoBlob w' = None /\
  match e with
  | DataAvailable id' data =>
      id' = id /\
      recordedChunksRef w' =
        recordedChunksRef w ++ List.filter nonempty [data]
  | _ => recordedChunksRef w' = recordedChunksRef w
  end.
Proof.
  intros Hd Hstep Ho Hr Ha Hb.
  destruct (disturbs_frame w w' e Hd Hstep)
    as (_ & _ & Hblob & Hlen & Hrecs & Hchunks).
  split; [|split; [|split]].
  - intros id' r' Hr' Ha'.
    assert (Hlt : id' < length (recorders w))
      by (rewrite <- Hlen; eapply lookup_lt_Some; eassumption).
    apply lookup_lt_is_Some in Hlt. destruct Hlt as [r0 Hr0].
    destruct (Hrecs id' r0 Hr0) as (r1 & Hr1 & Ha1 & _).
    apply (Ho id' r0 Hr0). congruence.
  - destruct (Hrecs id r Hr) as (r1 & Hr1 & Ha1 & _).
    exists r1. split; [assumption|congruence].
  - destruct Hblob; congruence.
  - destruct e; try assumption.
    split; [|assumption].
    simpl in Hstep.
    destruct (recorders w !! id0) as [r0|] eqn:Er; [|discriminate].
    destruct (rec_active r0) eqn:Ea; [|discriminate].
    exact (Ho id0 r0 Er Ea).
Qed.

Lemma undisturbed_run (id : nat) (es : list Event) :
  forall (w w1 : World) (r : MediaRecorder),
    only_active id w -> recorders w !! id = Some r -> rec_active r = true ->
    videoBlob w = None ->
    run_avoiding disturbs w es = Some w1 ->
    only_active id w1 /\
    (exists r1, recorders w1 !! id = Some r1 /\ rec_active r1 = true) /\
    videoBlob w1 = None /\
    delivered es = delivered_by id es /\
    recordedChunksRef w1 =
      recordedChunksRef w ++ List.filter nonempty (delivered es).
Proof.
  induction es as [|e es IH]; intros w w1 r Ho Hr Ha Hb Hrun.
  - simpl in Hrun. inversion Hrun; subst. simpl. rewrite app_nil_r.
    repeat split; try assumption. now exists r.
  - cbn [run_avoiding] in Hrun.
    destruct (disturbs w e) eqn:Hd; [discriminate|].
    destruct (step w e) as [w'|] eqn:Hstep; [|discriminate].
    destruct (undisturbed_step id w w' e r Hd Hstep Ho Hr Ha Hb)
      as (Ho' & (r' & Hr' & Ha') & Hb' & He).
    destruct (IH w' w1 r' Ho' Hr' Ha' Hb' Hrun) as (Ho1 & Hr1 & Hb1 & Hdl & Hc).
    split; [assumption|]. split; [assumption|]. split; [assumption|].
    destruct e; cbn [delivered delivered_by];
      try (split; [assumption | now rewrite Hc, He]).
    destruct He as [-> He]. rewrite Nat.eqb_refl.
    split; [now rewrite Hdl|].
    rewrite Hc, He. cbn [List.filter]. unfold nonempty at 1 3.
    destruct (Nat.ltb 0 (blob_size data)); simpl.
    + now rewrite <- app_assoc.
    + now rewrite app_nil_r.
Qed.

(** C1 (as amended).  A recording session that starts while no other
    session is active: the recorder is constructed and started, by
    [startRecording] with a stream attached or when the stream it awaits
    is granted.  Up to its stop finalization anything may happen except
    that a recorder is constructed or finalized: segments are delivered,
    the user asks to stop, an upload is asked for, streams are granted or
    refused.  Then every segment delivered comes from this recorder, there
    is no artifact during the session, the buffer holds the N delivered
    segments of positive size in order (all the delivered segments, when
    none is empty), the only finalization that can occur is this
    recorder's, and it can occur.  It produces one artifact, made of the
    bytes of the N segments in order, its byte length the sum of their
    lengths, and the session cannot be finalized a second time.  Such a
    session exists for every sequence of deliveries and stop requests. *)
Theorem recording_session_yields_one_artifact (w : World) (start : Event) :
  constructs_recorder w start = true -> active_sessions w = 0 ->
  let id := length (recorders w) in
  exists w0,
    step w start = Some w0 /\
    (forall ses : list SessionEvent,
       exists w1,
         run_avoiding disturbs w0 (map (session_event id) ses) = Some w1 /\
         delivered (map (session_event id) ses) = segments ses) /\
    forall (es : list Event) (w1 : World),
      run_avoiding disturbs w0 es = Some w1 ->
      let delivered_nonempty := List.filter nonempty (delivered es) in
      delivered es = delivered_by id es /\
      videoBlob w1 = None /\
      recordedChunksRef w1 = delivered_nonempty /\
      (Forall (fun data => 0 < blob_size data) (delivered es) ->
       delivered_nonempty = delivered es) /\
      (forall id' w2, step w1 (RecorderStopped id') = Some w2 -> id' = id) /\
      exists w2 artifact,
        step w1 (RecorderStopped id) = Some w2 /\
        videoBlob w2 = Some artifact /\
        blob_bytes artifact = concat (map blob_bytes delivered_nonempty) /\
        blob_size artifact = list_sum (map blob_size delivered_nonempty) /\
        blob_size artifact = list_sum (map blob_size (delivered es)) /\
        step w2 (RecorderStopped id) = None.
Proof.
  intros Hstart Hnone id.
  destruct (constructs_recorder_step w start Hstart)
    as (stream & w' & Hstep & Hrecs).
  set (w0 := startRecording_try stream Started w') in *.
  set (r := mkRecorder stream options_mimeType rs_recording).
  assert (Hnone' : active_sessions w' = 0)
    by (unfold active_sessions in *; now rewrite Hrecs).
  pose proof (only_active_started w' stream Hnone') as Ho.
  rewrite Hrecs in Ho. fold id w0 in Ho.
  assert (Hr : recorders w0 !! id = Some r).
  { subst w0 id. unfold startRecording_try. fields. rewrite <- Hrecs.
    apply lookup_snoc_new. }
  exists w0. split; [exact Hstep|]. split.
  - intros ses.
    destruct (session_events_run ses w0 id r) as (w1 & _ & Hrun & _);
      try reflexivity; try assumption.
    { subst w0 id. unfold startRecording_try. fields. now rewrite Hrecs. }
    exists w1. split; [|apply delivered_session_events].
    now rewrite session_events_undisturbed.
  - intros es w1 Hrun delivered_nonempty.
    destruct (undisturbed_run id es w0 w1 r Ho Hr eq_refl eq_refl Hrun)
      as (Ho1 & (r1 & Hr1 & Ha1) & Hb1 & Hdl & Hc).
    change (recordedChunksRef w0) with (@nil Blob) in Hc. simpl in Hc.
    split; [assumption|]. split; [assumption|]. split; [assumption|].
    split; [apply filter_nonempty_all|].
    split.
    { intros id' w2 Hstop. simpl in Hstop.
      destruct (recorders w1 !! id') as [r'|] eqn:Er; [|discriminate].
      destruct (rec_active r') eqn:Ea; [|discriminate].
      exact (Ho1 id' r' Er Ea). }
    eexists _, _. split; [exact (step_RecorderStopped w1 id r1 Hr1 Ha1)|].
    cbv zeta. split; [reflexivity|].
    split; [simpl; now rewrite Hc|].
    split; [rewrite blob_size_new_Blob; simpl; now rewrite Hc|].
    split; [rewrite blob_size_new_Blob; simpl; rewrite Hc;
            apply list_sum_nonempty|].
    unfold step, onstop, stop_tracks. fields.
    rewrite list_lookup_insert_eq by (eapply lookup_lt_Some; eassumption).
    reflexivity.
Qed.

Lemma recording_session_yields_one_artifact_witness :
  let es := [DataAvailable 0 (segment 3); StopRecording; HandleUpload "0b9f";
             DataAvailable 0 empty_segment; DataAvailable 0 (segment 5)] in
  let trace := UserMediaSettled 0 true Started :: StartRecording Started :: es in
  exists w0,
    step camera_ready (StartRecording Started) = Some w0 /\
    run_avoiding disturbs w0 es = Some (after trace) /\
    recordedChunksRef (after trace) = [segment 3; segment 5] /\
    exists w2 artifact,
      step (after trace) (RecorderStopped 0) = Some w2 /\
      videoBlob w2 = Some artifact /\
      blob_size artifact = 8.
Proof.
  intros es trace.
  destruct (recording_session_yields_one_artifact camera_ready
              (StartRecording Started))
    as (w0 & Hstep & _ & Hnext); [reflexivity | reflexivity |].
  assert (Hrun : run_avoiding disturbs w0 es = Some (after trace)).
  { assert (Hw0 : Some w0 = Some (startRecording Started camera_ready))
      by (rewrite <- Hstep; reflexivity).
    inversion Hw0; subst w0. vm_compute. reflexivity. }
  destruct (Hnext es (after trace) Hrun)
    as (_ & _ & Hc & _ & _ & w2 & artifact & Hstop & Hblob & _ & Hsize & _).
  exists w0. split; [exact Hstep|]. split; [exact Hrun|].
  split; [exact Hc|].
  exists w2, artifact. split; [exact Hstop|]. split; [exact Hblob|].
  exact Hsize.
Defined.

(** C1, the claim as stated fails: [startRecording] is invoked again
    during a session.  The first recorder delivers 3 bytes, the second
    start empties the buffer, the first recorder delivers 2 more bytes and
    is finalized.  Its session delivered two segments of positive size, 5
    bytes in all, and the artifact has the 2 bytes of the second. *)
Lemma recording_session_interrupted :
  delivered_by 0 interrupted_session = [segment 3; segment 2] /\
  list_sum (map blob_size (delivered_by 0 interrupted_session)) = 5 /\
  option_map (fun w => option_map blob_size (videoBlob w))
    (run mounted interrupted_session) = Some (Some 2) /\
  option_map (fun w => option_map blob_bytes (videoBlob w))
    (run mounted interrupted_session) = Some (Some (blob_bytes (segment 2))).
Proof. vm_compute. repeat split. Qed.

Lemma elem_of_delete_other {A} (l : list A) (i : nat) (x y : A) :
  x ∈ l -> l !! i = Some y -> x <> y -> x ∈ delete i l.
Proof.
  intros Hx Hi Hne. apply list_elem_of_lookup in Hx as [j Hj].
  apply list_elem_of_lookup.
  destruct (decide (j < i)) as [Hlt|Hge].
  - exists j. now rewrite list_lookup_delete_lt.
  - destruct (decide (j = i)) as [->|Hji]; [congruence|].
    exists (j - 1). rewrite list_lookup_delete_ge by lia.
    now replace (S (j - 1)) with j by lia.
Qed.

(** What an event that constructs and finalizes no recorder, starts no
    upload and answers none leaves in place. *)
Lemma interferes_frame (w w' : World) (e : Event) :
  interferes w e = false -> step w e = Some w' ->
  isRecording w' = isRecording w /\ uploading w' = uploading w /\
  videoBlob w' = videoBlob w /\ storageLog w' = storageLog w /\
  forall fileName filePath,
    AwaitUpload fileName filePath ∈ suspended w ->
    AwaitUpload fileName filePath ∈ suspended w'.
Proof.
  intros Hi H.
  step_cases H; settle Hi; fields; repeat split; auto;
    intros fileName filePath Hin;
    try (apply elem_of_app; left; assumption);
    (eapply elem_of_delete_other; [eassumption|eassumption|discriminate]).
Qed.

Lemma interferes_run (es : list Event) :
  forall w w1 : World,
    run_avoiding interferes w es = Some w1 ->
    isRecording w1 = isRecording w /\ uploading w1 = uploading w /\
    videoBlob w1 = videoBlob w /\ storageLog w1 = storageLog w /\
    (is_Some (videoRef w) -> is_Some (videoRef w1)) /\
    forall fileName filePath,
      AwaitUpload fileName filePath ∈ suspended w ->
      AwaitUpload fileName filePath ∈ suspended w1.
Proof.
  induction es as [|e es IH]; intros w w1 Hrun.
  - simpl in Hrun. inversion Hrun; subst. repeat split; auto.
  - cbn [run_avoiding] in Hrun.
    destruct (interferes w e) eqn:Hi; [discriminate|].
    destruct (step w e) as [w'|] eqn:Hstep; [|discriminate].
    destruct (interferes_frame w w' e Hi Hstep) as (H1 & H2 & H3 & H4 & H5).
    destruct (IH w' w1 Hrun) as (G1 & G2 & G3 & G4 & G5 & G6).
    repeat split; try congruence.
    + intros Hv. apply G5. eapply videoRef_step; eassumption.
    + intros fileName filePath Hin. now apply G6, H5.
Qed.

(** C2 (as amended).  An upload attempt started in a reachable world with
    an artifact puts the controller in Uploading.  Until the storage
    answers anything may happen except that a recorder is constructed or
    finalized, or that another upload is started or answered; the
    controller is then still in Uploading, the artifact is in place and
    the attempt is awaited.  When the storage write succeeds, the artifact
    is cleared, the uploading flag is lowered and a new stream acquisition
    is started; with the same proviso from then on, the controller is in
    StreamReady as soon as an acquisition whose result is dropped is
    granted.  When the write fails (an error in the response, or a
    rejected call), the artifact is retained, the controller is back in
    Recorded, the status message is "Upload failed: " followed by the
    error's message, and nothing is retried: no further storage call, no
    call newly suspended. *)
Theorem upload_attempt_outcome
    (w : World) (blob : Blob) (uuid : string) (es : list Event) (w1 : World) :
  reachable w -> videoBlob w = Some blob ->
  run_avoiding interferes (handleUpload uuid w) es = Some w1 ->
  let fileName := uuid +:+ "." +:+ fileExt_of blob in
  let filePath := "public_videos/" +:+ fileName in
  controllerState (handleUpload uuid w) = Uploading /\
  controllerState w1 = Uploading /\ videoBlob w1 = Some blob /\
  (exists i, suspended w1 !! i = Some (AwaitUpload fileName filePath)) /\
  forall (i : nat) (response : UploadResponse) (publicUrl : string),
    suspended w1 !! i = Some (AwaitUpload fileName filePath) ->
    exists w2,
      step w1 (UploadSettled i response publicUrl) = Some w2 /\
      match response with
      | Resolved None =>
          videoBlob w2 = None /\ uploading w2 = false /\
          suspended w2 =
            delete i (suspended w1) ++ [AwaitUserMedia ResultDropped] /\
          forall (es' : list Event) (w3 : World) (j : nat)
                 (mk : RecorderOutcome),
            run_avoiding interferes w2 es' = Some w3 ->
            suspended w3 !! j = Some (AwaitUserMedia ResultDropped) ->
            exists w4,
              step w3 (UserMediaSettled j true mk) = Some w4 /\
              controllerState w4 = StreamReady
      | Resolved (Some error) | Rejected error =>
          videoBlob w2 = Some blob /\ controllerState w2 = Recorded /\
          statusMessage w2 = "Upload failed: " +:+ message error /\
          Js.includes (statusMessage w2) (message error) = true /\
          storageLog w2 = storageLog (handleUpload uuid w) /\
          suspended w2 = delete i (suspended w1)
      end.
Proof.
  intros Hreach Hblob Hrun fileName filePath.
  pose proof (not_recording_with_artifact w blob Hreach Hblob) as Hrec.
  pose proof (videoRef_reachable w Hreach) as Hv.
  destruct (interferes_run es _ w1 Hrun) as (H1 & H2 & H3 & H4 & H5 & H6).
  revert H1 H2 H3 H4 H5 H6.
  rewrite (handleUpload_artifact uuid w blob Hblob). cbv zeta. fields.
  fold fileName filePath.
  intros H1 H2 H3 H4 H5 H6.
  rewrite Hrec in H1. rewrite Hblob in H3. specialize (H5 Hv).
  split; [unfold controllerState; fields; now rewrite Hrec|].
  split; [unfold controllerState; now rewrite H1, H2|].
  split; [assumption|]. split.
  { apply list_elem_of_lookup, H6, elem_of_app. right. apply list_elem_of_here. }
  intros i response publicUrl Hs.
  eexists. split; [exact (step_UploadSettled w1 i _ _ response publicUrl Hs)|].
  assert (Hfail : forall error : StorageError,
    let w2 :=
      setUploading false
        (setStatusMessage ("Upload failed: " +:+ message error)
           (set_suspended (delete i (suspended w1)) w1)) in
    videoBlob w2 = Some blob /\ controllerState w2 = Recorded /\
    statusMessage w2 = "Upload failed: " +:+ message error /\
    Js.includes (statusMessage w2) (message error) = true /\
    storageLog w2 =
      storageLog w ++ [Upload bucket filePath blob "3600" false] /\
    suspended w2 = delete i (suspended w1)).
  { intros error. cbv zeta. unfold controllerState. fields.
    rewrite H1, H3. repeat split; try assumption. apply includes_append. }
  destruct response as [[error|]|reason].
  - apply Hfail.
  - unfold handleUpload_resume. fields.
    split; [reflexivity|]. split; [reflexivity|]. split; [reflexivity|].
    intros es' w3 j mk Hrun' Hj.
    destruct (interferes_run es' _ w3 Hrun') as (G1 & G2 & G3 & _ & G5 & _).
    fields in G1. fields in G2. fields in G3. fields in G5.
    destruct (G5 H5) as [v Hv3].
    eexists. split; [exact (step_UserMediaSettled_dropped w3 j true mk Hj)|].
    unfold startStream_resume. fields. rewrite Hv3. fields.
    unfold controllerState, stream_live, current_srcObject. fields.
    cbn [srcObject]. now rewrite G1, H1, G2, G3, lookup_snoc_new.
  - apply Hfail.
Qed.

Lemma upload_attempt_outcome_witness :
  let w := after (take 6 grant_during_upload) in
  let error := mkStorageError "Bucket not found" in
  let es := [UserMediaSettled 0 false Started; StopRecording;
             StartRecording CtorThrows] in
  let w1 := after (take 6 grant_during_upload ++ HandleUpload "0b9f" :: es) in
  suspended w1 =
    [AwaitUserMedia FromStartRecording;
     AwaitUpload "0b9f.webm" "public_videos/0b9f.webm"] /\
  controllerState w1 = Uploading /\
  exists w2,
    step w1 (UploadSettled 1 (Resolved (Some error)) "n/a") = Some w2 /\
    videoBlob w2 = Some (segment 3) /\ controllerState w2 = Recorded /\
    statusMessage w2 = "Upload failed: Bucket not found" /\
    storageLog w2 = storageLog (handleUpload "0b9f" w) /\
    suspended w2 = [AwaitUserMedia FromStartRecording].
Proof.
  intros w error es w1.
  split; [vm_compute; reflexivity|].
  destruct (upload_attempt_outcome w (segment 3) "0b9f" es w1)
    as (_ & Hstate & _ & _ & Hanswer).
  - exists (take 6 grant_during_upload). vm_compute. reflexivity.
  - vm_compute. reflexivity.
  - vm_compute. reflexivity.
  - split; [exact Hstate|].
    destruct (Hanswer 1 (Resolved (Some error)) "n/a")
      as (w2 & Hstep & Hblob & Hrecorded & Hmsg & _ & Hlog & Hsusp).
    + vm_compute. reflexivity.
    + exists w2. split; [exact Hstep|]. split; [exact Hblob|].
      split; [exact Hrecorded|]. split; [exact Hmsg|].
      split; [exact Hlog|]. rewrite Hsusp. vm_compute. reflexivity.
Defined.

(** C2, the claim as stated fails, in both halves.  First run: the storage
    write succeeds and the artifact is cleared, but the camera is refused
    when the stream is acquired again, and the controller ends in Idle
    with the error status, not in StreamReady.  Second run, every handler
    invoked through the rendered controls: the start button is clicked
    twice before any stream is there; a take of 3 bytes is made on the
    first stream granted and handed to [handleUpload]; the second stream
    is granted before the storage answers, and [startRecording] resumes
    and clears the artifact.  The write then fails: the failure is
    reported, the artifact is gone and the controller is in Recording. *)
Lemma upload_success_without_stream :
  option_map storageLog (run mounted upload_then_refusal) =
    Some [Upload "videos" "public_videos/0b9f.webm"
            (mkBlob (repeat Byte.x2a 8) "video/webm") "3600" false;
          GetPublicUrl "videos" "public_videos/0b9f.webm"] /\
  option_map videoBlob (run mounted upload_then_refusal) = Some None /\
  option_map statusMessage (run mounted upload_then_refusal) =
    Some "Error: Could not access camera and microphone." /\
  option_map controllerState (run mounted upload_then_refusal) = Some Idle /\
  option_map videoBlob (run mounted (take 7 refusal_after_grant)) =
    Some (Some (segment 3)) /\
  run_ui mounted refusal_after_grant = run mounted refusal_after_grant /\
  option_map statusMessage (run mounted refusal_after_grant) =
    Some "Upload failed: Bucket not found" /\
  option_map videoBlob (run mounted refusal_after_grant) = Some None /\
  option_map controllerState (run mounted refusal_after_grant) =
    Some Recording.
Proof. vm_compute. repeat split. Qed.

(** * Further properties of the component *)

(** ** The chunk buffer *)

Lemma chunks_positive_step (w w' : World) (e : Event) :
  Forall (fun data => 0 < blob_size data) (recordedChunksRef w) ->
  step w e = Some w' ->
  Forall (fun data => 0 < blob_size data) (recordedChunksRef w').
Proof.
  intros Hc H. step_cases H; fields; try assumption; try constructor.
  apply Forall_app. split; [assumption|].
  constructor; [|constructor]. now apply Nat.ltb_lt.
Qed.

(** ** The streams *)

Lemma latest_stream_lt (w : World) (m : MediaStream) :
  latest_stream w = Some m -> m < length (streams w).
Proof.
  unfold latest_stream. destruct (length (streams w)); [discriminate|].
  intros H. inversion H. lia.
Qed.

Lemma preview_step (w w' : World) (e : Event) :
  videoRef w = Some (mkVideo (latest_stream w)) -> step w e = Some w' ->
  videoRef w' = Some (mkVideo (latest_stream w')).
Proof.
  intros Hv H.
  step_cases H; unfold latest_stream in *; fields;
    rewrite ?length_insert, ?length_app; simpl; rewrite ?Nat.add_1_r;
    congruence.
Qed.

Lemma in_range_step (w w' : World) (e : Event) :
  videoRef w = Some (mkVideo (latest_stream w)) ->
  Forall (fun r => rec_stream r < length (streams w)) (recorders w) ->
  step w e = Some w' ->
  Forall (fun r => rec_stream r < length (streams w')) (recorders w').
Proof.
  intros Hv Hr H.
  assert (Hsnoc : forall m phase,
            m < length (streams w) ->
            Forall (fun r => rec_stream r < length (streams w))
              (recorders w ++ [mkRecorder m options_mimeType phase])).
  { intros m phase Hm. apply Forall_app. split; [assumption|].
    now repeat constructor. }
  assert (Hins : forall id r phase,
            recorders w !! id = Some r ->
            Forall (fun r => rec_stream r < length (streams w))
              (<[id := mkRecorder (rec_stream r) (rec_mimeType r) phase]>
                 (recorders w))).
  { intros id r phase Hid. apply Forall_insert; [assumption|].
    simpl. rewrite Forall_lookup in Hr. exact (Hr id r Hid). }
  assert (Hattached : forall v m,
            videoRef w = Some v -> srcObject v = Some m ->
            m < length (streams w)).
  { intros v m Hv' Hm. rewrite Hv in Hv'. inversion Hv'; subst v.
    now apply latest_stream_lt. }
  step_cases H; fields; rewrite ?length_insert; eauto.
  all: rewrite ?length_app; simpl.
  all: try (eapply Forall_impl; [eassumption|]; simpl; intros; lia).
  all: apply Forall_app; split;
    [eapply Forall_impl; [eassumption|]; simpl; intros; lia
    |repeat constructor; simpl; lia].
Qed.

Lemma streams_attached_reachable (w : World) :
  reachable w ->
  videoRef w = Some (mkVideo (latest_stream w)) /\
  Forall (fun r => rec_stream r < length (streams w)) (recorders w).
Proof.
  revert w.
  apply (reachable_ind'
           (fun w => videoRef w = Some (mkVideo (latest_stream w)) /\
                     Forall (fun r => rec_stream r < length (streams w))
                       (recorders w))).
  - split; [reflexivity|constructor].
  - intros w e w' [Hv Hr] Hstep. split.
    + eapply preview_step; eassumption.
    + eapply in_range_step; eassumption.
Qed.

(** ** The artifact *)

Lemma declared_base_type (parts : list Blob) :
  blob_type (new_Blob parts (Js.split_head ";" options_mimeType)) = "video/webm".
Proof. reflexivity. Qed.

Lemma artifact_type_step (w w' : World) (e : Event) :
  Forall declared (recorders w) ->
  (forall b, videoBlob w = Some b -> blob_type b = "video/webm") ->
  step w e = Some w' ->
  forall b, videoBlob w' = Some b -> blob_type b = "video/webm".
Proof.
  intros Hd Hb H.
  assert (Hmime : forall id r, recorders w !! id = Some r ->
                    rec_mimeType r = options_mimeType).
  { intros id r Hr. rewrite Forall_lookup in Hd. exact (Hd id r Hr). }
  step_cases H; fields; intros b' Hsome;
    try discriminate; try (apply Hb; congruence).
  inversion Hsome; subst b'.
  cbn [rec_mimeType]. erewrite Hmime by eassumption.
  apply declared_base_type.
Qed.

Lemma artifact_type_reachable (w : World) (b : Blob) :
  reachable w -> videoBlob w = Some b -> blob_type b = "video/webm".
Proof.
  intros Hreach.
  assert (H : Forall declared (recorders w) /\
              forall b, videoBlob w = Some b -> blob_type b = "video/webm").
  { revert w Hreach.
    apply (reachable_ind'
             (fun w => Forall declared (recorders w) /\
                       forall b, videoBlob w = Some b ->
                                 blob_type b = "video/webm")).
    - split; [constructor|discriminate].
    - intros w e w' [Hd Hb] Hstep. split.
      + eapply declared_step; eassumption.
      + eapply artifact_type_step; eassumption. }
  apply H.
Qed.

(** ** The storage log *)

Lemma webm_extension (b : Blob) :
  blob_type b = "video/webm" -> fileExt_of b = "webm".
Proof. unfold fileExt_of. now intros ->. Qed.

Lemma urls_follow_writes_snoc (log : list StorageCall) (c : StorageCall) :
  urls_follow_writes log ->
  (forall b path, c = GetPublicUrl b path ->
     exists body, Upload "videos" path body "3600" false ∈ log) ->
  urls_follow_writes (log ++ [c]).
Proof.
  intros Hlog Hc j b path Hj.
  apply lookup_snoc_Some in Hj. destruct Hj as [[Hlt Hj] | [-> Heq]].
  - destruct (Hlog j b path Hj) as (i & body & Hi & Hup).
    exists i, body. split; [assumption|]. now apply lookup_app_l_Some.
  - destruct (Hc b path Heq) as (body & Hin).
    apply list_elem_of_lookup_1 in Hin. destruct Hin as [i Hi].
    exists i, body. split; [eapply lookup_lt_Some; eassumption|].
    now apply lookup_app_l_Some.
Qed.

Lemma storage_log_step (w w' : World) (e : Event) :
  (forall b, videoBlob w = Some b -> blob_type b = "video/webm") ->
  Forall call_shape (storageLog w) /\ urls_follow_writes (storageLog w) /\
    awaited_are_written w ->
  step w e = Some w' ->
  Forall call_shape (storageLog w') /\ urls_follow_writes (storageLog w') /\
    awaited_are_written w'.
Proof.
  intros Hb (Hshape & Hurls & Hawait) H.
  assert (Hdel : forall i fileName filePath,
            AwaitUpload fileName filePath ∈ delete i (suspended w) ->
            exists body,
              Upload "videos" filePath body "3600" false ∈ storageLog w).
  { intros i fileName filePath Hin. apply (Hawait fileName filePath).
    eapply list_elem_of_delete_inv; eassumption. }
  unfold awaited_are_written in *.
  step_cases H; fields; try (split; [assumption|split; assumption]).
  all: repeat match goal with |- _ /\ _ => split end; try assumption.
  all: try (intros fileName' filePath' Hin;
            rewrite ?elem_of_app, ?list_elem_of_singleton in Hin;
            repeat match type of Hin with
              | _ \/ _ => destruct Hin as [Hin|Hin]
              end;
            try discriminate; eauto; fail).
  - apply Forall_app. split; [assumption|].
    constructor; [|constructor]. simpl.
    rewrite (webm_extension b (Hb b eq_refl)).
    repeat split; [now apply Hb|]. now exists uuid.
  - apply urls_follow_writes_snoc; [assumption|]. intros; discriminate.
  - intros fileName' filePath' Hin. apply elem_of_app in Hin.
    destruct Hin as [Hin|Hin].
    + destruct (Hawait _ _ Hin) as [body Hbody]. exists body.
      apply elem_of_app. now left.
    + apply list_elem_of_singleton in Hin. inversion Hin; subst.
      exists b. apply elem_of_app. right. now apply list_elem_of_singleton.
  - apply Forall_app. split; [assumption|]. now repeat constructor.
  - apply urls_follow_writes_snoc; [assumption|].
    intros b path Heq. inversion Heq; subst.
    apply (Hawait fileName path).
    eapply list_elem_of_lookup_2; eassumption.
  - intros fileName' filePath' Hin. apply elem_of_app in Hin.
    destruct Hin as [Hin|Hin].
    + destruct (Hdel _ _ _ Hin) as [body Hbody]. exists body.
      apply elem_of_app. now left.
    + apply list_elem_of_singleton in Hin. discriminate.
Qed.

Lemma storage_log_reachable (w : World) :
  reachable w ->
  Forall call_shape (storageLog w) /\ urls_follow_writes (storageLog w) /\
    awaited_are_written w.
Proof.
  intros Hreach.
  assert (H : (Forall declared (recorders w) /\
               forall b, videoBlob w = Some b -> blob_type b = "video/webm") /\
              (Forall call_shape (storageLog w) /\
               urls_follow_writes (storageLog w) /\ awaited_are_written w)).
  { revert w Hreach.
    apply (reachable_ind'
             (fun w =>
                (Forall declared (recorders w) /\
                 forall b, videoBlob w = Some b -> blob_type b = "video/webm") /\
                (Forall call_shape (storageLog w) /\
                 urls_follow_writes (storageLog w) /\ awaited_are_written w))).
    - split; [split; [constructor|discriminate]|].
      split; [constructor|]. split.
      + intros j b path Hj. discriminate.
      + intros fileName filePath Hin.
        apply list_elem_of_singleton in Hin. discriminate.
    - intros w e w' [[Hd Hb] Hlog] Hstep. split; [split|].
      + eapply declared_step; eassumption.
      + eapply artifact_type_step; eassumption.
      + eapply storage_log_step; eassumption. }
  apply H.
Qed.

(** ** Runs driven by the rendered controls *)


Lemma offered_stop (w : World) :
  offered (render w) StopRecording = true -> isRecording w = true.
Proof.
  unfold offered, render. simpl. now destruct (isRecording w).
Qed.

Lemma offered_upload (w : World) (uuid : string) :
  offered (render w) (HandleUpload uuid) = true ->
  (exists blob, videoBlob w = Some blob) /\
  isRecording w = false /\ uploading w = false.
Proof.
  unfold offered, render. simpl.
  destruct (videoBlob w) as [blob|]; [|discriminate].
  destruct (isRecording w), (uploading w); simpl; try discriminate.
  split; [now exists blob|now split].
Qed.

Lemma count_uploads_snoc (l : list Suspended) (s : Suspended) :
  length (List.filter is_upload (l ++ [s])) =
  length (List.filter is_upload l) + (if is_upload s then 1 else 0).
Proof.
  rewrite List.filter_app, length_app. simpl. now destruct (is_upload s).
Qed.

Lemma count_uploads_delete (l : list Suspended) (i : nat) (s : Suspended) :
  l !! i = Some s ->
  length (List.filter is_upload (delete i l)) + (if is_upload s then 1 else 0) =
  length (List.filter is_upload l).
Proof.
  intros Hs. rewrite delete_take_drop.
  rewrite <- (take_drop_middle l i s Hs) at 3.
  rewrite !List.filter_app, !length_app. simpl.
  destruct (is_upload s); simpl; lia.
Qed.

Lemma uploads_in_flight_step (w w' : World) (e : Event) :
  offered (render w) e = true ->
  uploads_in_flight w = (if uploading w then 1 else 0) ->
  step w e = Some w' ->
  uploads_in_flight w' = (if uploading w' then 1 else 0).
Proof.
  intros Hoff Hu H. unfold uploads_in_flight in *.
  step_cases H; fields; rewrite ?count_uploads_snoc; simpl;
    try match goal with
        | Hs : suspended w !! _ = Some _ |- _ =>
            pose proof (count_uploads_delete _ _ _ Hs) as Hdel; simpl in Hdel
        end;
    try (destruct (offered_upload _ _ Hoff) as (_ & _ & Hup); rewrite Hup in Hu);
    destruct (uploading w); lia.
Qed.




Lemma uploads_in_flight_run (es : list Event) :
  forall w w',
    uploads_in_flight w = (if uploading w then 1 else 0) ->
    run_ui w es = Some w' ->
    uploads_in_flight w' = (if uploading w' then 1 else 0).
Proof.
  induction es as [|e es IH]; intros w w' Hinv Hrun; simpl in Hrun.
  - now inversion Hrun; subst.
  - destruct (offered (render w) e) eqn:Hoff; [|discriminate].
    destruct (step w e) as [w1|] eqn:Hstep; [|discriminate].
    eapply IH; [|eassumption].
    eapply uploads_in_flight_step; eassumption.
Qed.

Lemma run_ui_run (es : list Event) :
  forall w w', run_ui w es = Some w' -> run w es = Some w'.
Proof.
  induction es as [|e es IH]; intros w w' Hrun; simpl in *; [assumption|].
  destruct (offered (render w) e); [|discriminate].
  destruct (step w e); [now apply IH|discriminate].
Qed.

(** ** Acquiring the stream *)

Lemma streams_grow_step (w w' : World) (e : Event) :
  step w e = Some w' -> length (streams w) <= length (streams w').
Proof.
  intros H. step_cases H; fields;
    rewrite ?length_insert, ?length_app; simpl; lia.
Qed.

Lemma streams_grow_run (es : list Event) :
  forall w w', run w es = Some w' -> length (streams w) <= length (streams w').
Proof.
  induction es as [|e es IH]; intros w w' Hrun; simpl in Hrun.
  - inversion Hrun; subst. lia.
  - destruct (step w e) as [w1|] eqn:Hstep; [|discriminate].
    pose proof (streams_grow_step _ _ _ Hstep). pose proof (IH _ _ Hrun). lia.
Qed.

Lemma reachable_run_from (w w' : World) (es : list Event) :
  reachable w -> run w es = Some w' -> reachable w'.
Proof.
  intros [es0 H0] Hrun. exists (es0 ++ es). now rewrite run_app, H0.
Qed.

Lemma preview_reachable (w : World) :
  reachable w -> current_srcObject w = latest_stream w.
Proof.
  intros Hreach. destruct (streams_attached_reachable w Hreach) as [Hv _].
  unfold current_srcObject. now rewrite Hv.
Qed.

(** X1.  When the [getUserMedia] call of a [startStream] whose result is
    dropped settles, the recording and upload state is left alone and no
    stream handed out earlier has its tracks touched (the stream that is
    replaced in the preview is not stopped).  Granted, the fresh stream is
    attached to the preview, live, and reported; refused, only the status
    message changes. *)
Theorem startStream_outcome
    (w : World) (i : nat) (granted : bool) (mk : RecorderOutcome) :
  reachable w -> suspended w !! i = Some (AwaitUserMedia ResultDropped) ->
  exists w',
    step w (UserMediaSettled i granted mk) = Some w' /\
    (isRecording w' = isRecording w /\ videoBlob w' = videoBlob w /\
     uploading w' = uploading w /\
     recordedChunksRef w' = recordedChunksRef w /\
     mediaRecorderRef w' = mediaRecorderRef w /\
     recorders w' = recorders w /\ storageLog w' = storageLog w) /\
    (forall s, s < length (streams w) -> streams w' !! s = streams w !! s) /\
    if granted then
      current_srcObject w' = Some (length (streams w)) /\
      stream_live w' = true /\
      statusMessage w' = "Camera stream active. Click Record."
    else
      streams w' = streams w /\ videoRef w' = videoRef w /\
      statusMessage w' = "Error: Could not access camera and microphone.".
Proof.
  intros Hreach Hs.
  destruct (videoRef_reachable w Hreach) as [v Hv].
  eexists. split; [exact (step_UserMediaSettled_dropped w i granted mk Hs)|].
  unfold startStream_resume. fields.
  destruct granted; fields; rewrite ?Hv; fields.
  - split; [repeat split|]. split.
    + intros s Hlt. now apply lookup_app_l.
    + unfold stream_live, current_srcObject. fields. cbn [srcObject].
      rewrite lookup_snoc_new. repeat split.
  - repeat split.
Qed.

Lemma startStream_outcome_witness :
  exists w',
    step mounted (UserMediaSettled 0 false Started) = Some w' /\
    (isRecording w' = isRecording mounted /\
     videoBlob w' = videoBlob mounted /\
     uploading w' = uploading mounted /\
     recordedChunksRef w' = recordedChunksRef mounted /\
     mediaRecorderRef w' = mediaRecorderRef mounted /\
     recorders w' = recorders mounted /\
     storageLog w' = storageLog mounted) /\
    (forall s, s < length (streams mounted) ->
       streams w' !! s = streams mounted !! s) /\
    streams w' = streams mounted /\ videoRef w' = videoRef mounted /\
    statusMessage w' = "Error: Could not access camera and microphone.".
Proof.
  apply (startStream_outcome mounted 0 false Started).
  - exists []. reflexivity.
  - reflexivity.
Defined.

(** X2.  In every reachable world the preview shows the stream handed out
    last, and none when none was handed out; so once a stream is attached,
    one stays attached whatever happens afterwards. *)
Theorem preview_shows_latest_stream (w : World) :
  reachable w ->
  current_srcObject w = latest_stream w /\
  forall (es : list Event) (w' : World),
    run w es = Some w' ->
    is_Some (current_srcObject w) -> is_Some (current_srcObject w').
Proof.
  intros Hreach. split; [now apply preview_reachable|].
  intros es w' Hrun [m Hm].
  rewrite (preview_reachable w Hreach) in Hm.
  rewrite (preview_reachable w' (reachable_run_from w w' es Hreach Hrun)).
  pose proof (streams_grow_run es w w' Hrun) as Hle.
  pose proof (latest_stream_lt w m Hm) as Hlt.
  unfold latest_stream. destruct (length (streams w')); [lia|]. now eexists.
Qed.

Lemma preview_shows_latest_stream_witness :
  current_srcObject (after take_and_upload) = Some 0 /\
  latest_stream (after take_and_upload) = Some 0 /\
  is_Some (current_srcObject
             (after (take_and_upload ++ [UserMediaSettled 0 true Started]))).
Proof.
  destruct (preview_shows_latest_stream (after take_and_upload)) as [Heq Hstay].
  { exists take_and_upload. vm_compute. reflexivity. }
  split; [vm_compute; reflexivity|]. split; [vm_compute; reflexivity|].
  apply (Hstay [UserMediaSettled 0 true Started]).
  - vm_compute. reflexivity.
  - rewrite Heq. vm_compute. now eexists.
Defined.

(** X3.  [startRecording] without a stream in the preview constructs no
    recorder yet: it reports that it retries and waits for [startStream].
    If the camera is then refused, nothing is recorded and the status is
    the refusal; if it is granted, the recorder is constructed on the
    fresh stream, which is attached and live, and with the recorder
    started the controller is recording with no artifact. *)
Theorem startRecording_without_stream
    (w : World) (mk mk' : RecorderOutcome) (granted : bool) :
  reachable w -> current_srcObject w = None ->
  let w1 := startRecording mk w in
  recorders w1 = recorders w /\ isRecording w1 = isRecording w /\
  videoBlob w1 = videoBlob w /\
  statusMessage w1 = "Stream not available. Retrying stream access..." /\
  exists w2,
    step w1 (UserMediaSettled (length (suspended w)) granted mk') = Some w2 /\
    if granted then
      current_srcObject w2 = Some (length (streams w)) /\
      stream_live w2 = true /\
      (mk' = Started ->
       isRecording w2 = true /\ videoBlob w2 = None /\
       recordedChunksRef w2 = [] /\
       recorders w2 =
         recorders w ++
           [mkRecorder (length (streams w)) options_mimeType rs_recording])
    else
      recorders w2 = recorders w /\ isRecording w2 = isRecording w /\
      videoBlob w2 = videoBlob w /\ streams w2 = streams w /\
      statusMessage w2 = "Error: Could not access camera and microphone.".
Proof.
  intros Hreach Hsrc w1. subst w1.
  destruct (videoRef_reachable w Hreach) as [v Hv].
  unfold startRecording. rewrite Hsrc. fields.
  repeat (split; [reflexivity|]).
  destruct granted.
  - eexists. split.
    + unfold step. fields. rewrite lookup_snoc_new, delete_middle, app_nil_r.
      unfold startStream_resume. fields. rewrite Hv. reflexivity.
    + unfold startRecording_resume, startRecording_try, stream_live,
        current_srcObject.
      destruct mk'; fields; cbn [srcObject]; rewrite lookup_snoc_new;
        (split; [reflexivity|]); (split; [reflexivity|]);
        intros Hmk; try discriminate.
      repeat split.
  - eexists. split.
    + unfold step. fields. rewrite lookup_snoc_new, delete_middle, app_nil_r.
      unfold startStream_resume. fields. reflexivity.
    + unfold startRecording_resume. fields. repeat split.
Qed.

Lemma startRecording_without_stream_witness :
  let w := after [UserMediaSettled 0 false Started] in
  exists w2,
    step (startRecording Started w) (UserMediaSettled 0 true Started)
      = Some w2 /\
    current_srcObject w2 = Some 0 /\ stream_live w2 = true /\
    isRecording w2 = true /\ videoBlob w2 = None.
Proof.
  intros w.
  destruct (startRecording_without_stream w Started Started true)
    as (_ & _ & _ & _ & w2 & Hstep & Hsrc & Hlive & Hstarted).
  - exists [UserMediaSettled 0 false Started]. vm_compute. reflexivity.
  - vm_compute. reflexivity.
  - destruct (Hstarted eq_refl) as (Hrec & Hblob & _).
    exists w2. split; [exact Hstep|].
    split; [exact Hsrc|]. split; [exact Hlive|]. split; assumption.
Defined.

(** ** Buffer, artifact and storage calls of a reachable world *)

(** X4.  An empty segment is dropped: [ondataavailable] leaves the world as
    it is.  So in every reachable world every segment in the chunk buffer
    has positive size. *)
Theorem buffer_holds_nonempty_segments (w : World) :
  (forall data, blob_size data = 0 -> ondataavailable data w = w) /\
  (reachable w ->
   Forall (fun data => 0 < blob_size data) (recordedChunksRef w)).
Proof.
  split.
  - intros data Hsize. unfold ondataavailable. now rewrite Hsize.
  - revert w.
    apply (reachable_ind'
             (fun w => Forall (fun data => 0 < blob_size data)
                         (recordedChunksRef w))).
    + constructor.
    + intros; eapply chunks_positive_step; eassumption.
Qed.

Lemma buffer_holds_nonempty_segments_witness :
  ondataavailable empty_segment camera_ready = camera_ready /\
  Forall (fun data => 0 < blob_size data)
    (recordedChunksRef
       (after [UserMediaSettled 0 true Started; StartRecording Started;
               DataAvailable 0 (segment 3); DataAvailable 0 empty_segment])).
Proof.
  split.
  - apply (buffer_holds_nonempty_segments camera_ready). reflexivity.
  - apply buffer_holds_nonempty_segments.
    exists [UserMediaSettled 0 true Started; StartRecording Started;
            DataAvailable 0 (segment 3); DataAvailable 0 empty_segment].
    vm_compute. reflexivity.
Defined.

(** X5.  Every artifact of a reachable world has the type "video/webm",
    so every upload takes the "webm" extension: the "mp4" branch of
    [handleUpload] is never taken. *)
Theorem artifacts_are_webm (w : World) (blob : Blob) :
  reachable w -> videoBlob w = Some blob ->
  blob_type blob = "video/webm" /\ fileExt_of blob = "webm".
Proof.
  intros Hreach Hblob.
  pose proof (artifact_type_reachable w blob Hreach Hblob) as Htype.
  split; [assumption|]. now apply webm_extension.
Qed.

Lemma artifacts_are_webm_witness :
  blob_type (mkBlob (repeat Byte.x2a 8) "video/webm") = "video/webm" /\
  fileExt_of (mkBlob (repeat Byte.x2a 8) "video/webm") = "webm".
Proof.
  apply (artifacts_are_webm (after one_take)).
  - exists one_take. vm_compute. reflexivity.
  - vm_compute. reflexivity.
Defined.

(** X6.  Whatever the run, the calls issued to the storage client keep
    their shape: every write goes to "videos" under
    "public_videos/<identifier>.webm" with a "video/webm" body, cache
    control "3600" and [upsert] false, and every public URL asked for is
    that of an object written earlier in the log. *)
Theorem storage_calls_discipline (w : World) :
  reachable w ->
  Forall call_shape (storageLog w) /\ urls_follow_writes (storageLog w).
Proof.
  intros Hreach.
  destruct (storage_log_reachable w Hreach) as (Hshape & Hurls & _).
  now split.
Qed.

Lemma storage_calls_discipline_witness :
  Forall call_shape (storageLog (after take_and_upload)) /\
  urls_follow_writes (storageLog (after take_and_upload)) /\
  length (storageLog (after take_and_upload)) = 2.
Proof.
  destruct (storage_calls_discipline (after take_and_upload)) as [Hs Hu].
  - exists take_and_upload. vm_compute. reflexivity.
  - split; [exact Hs|]. split; [exact Hu|]. vm_compute. reflexivity.
Defined.

(** ** Stopping *)

Lemma current_session (w : World) :
  reachable w -> isRecording w = true ->
  videoBlob w = None /\
  exists id r,
    mediaRecorderRef w = Some id /\ recorders w !! id = Some r /\
    rec_active r = true.
Proof.
  intros Hreach Hrec.
  apply state_invariant_reachable, state_invariant_fields in Hreach.
  destruct Hreach as [Hinv _]. destruct (Hinv Hrec) as [Hblob Hact].
  split; [assumption|]. unfold current_session_active in Hact.
  destruct (mediaRecorderRef w) as [id|]; [|discriminate].
  destruct (recorders w !! id) as [r|] eqn:Er; [|discriminate].
  now exists id, r.
Qed.

(** X7.  In every reachable Recording state [stopRecording] calls
    [stop()] on the current recorder and does nothing else: the world
    after it is the world before it with that recorder stopping, whether
    or not a stop had been requested before; the other recorders are as
    they were and the controller is still Recording.  The stop event of
    the stopping recorder can then be dispatched; its handler lowers
    [isRecording], sets the artifact to the concatenation of the buffer
    with type "video/webm", leaves the recorder inactive and ends the
    tracks of the stream it recorded. *)
Theorem stop_then_finalize (w : World) :
  reachable w -> controllerState w = Recording ->
  exists id r w2 artifact,
    mediaRecorderRef w = Some id /\ recorders w !! id = Some r /\
    stopRecording w =
      set_recorders
        (<[id := mkRecorder (rec_stream r) (rec_mimeType r) rs_stopping]>
           (recorders w)) w /\
    recorders (stopRecording w) !! id =
      Some (mkRecorder (rec_stream r) (rec_mimeType r) rs_stopping) /\
    (forall id', id' <> id ->
       recorders (stopRecording w) !! id' = recorders w !! id') /\
    controllerState (stopRecording w) = Recording /\
    step (stopRecording w) (RecorderStopped id) = Some w2 /\
    isRecording w2 = false /\
    videoBlob w2 = Some artifact /\
    blob_bytes artifact = concat (map blob_bytes (recordedChunksRef w)) /\
    blob_type artifact = "video/webm" /\
    recorders w2 !! id =
      Some (mkRecorder (rec_stream r) (rec_mimeType r) rs_inactive) /\
    streams w2 !! rec_stream r = Some ended.
Proof.
  intros Hreach Hstate.
  assert (Hrec : isRecording w = true).
  { unfold controllerState in Hstate. destruct (isRecording w); [reflexivity|].
    destruct (uploading w); [discriminate|].
    destruct (videoBlob w); [discriminate|].
    destruct (stream_live w); discriminate. }
  destruct (current_session w Hreach Hrec) as (_ & id & r & Href & Hr & Ha).
  pose proof (declared_reachable w id r Hreach Hr) as Hmime.
  destruct (streams_attached_reachable w Hreach) as [_ Hrange].
  rewrite Forall_lookup in Hrange. specialize (Hrange id r Hr). simpl in Hrange.
  assert (Hlt : id < length (recorders w))
    by (eapply lookup_lt_Some; eassumption).
  set (r1 := mkRecorder (rec_stream r) (rec_mimeType r) rs_stopping).
  assert (Hstop : stopRecording w =
                    set_recorders (<[id := r1]> (recorders w)) w).
  { unfold stopRecording, MediaRecorder_stop. rewrite Href, Hrec, Hr.
    destruct (rec_phase r) eqn:Ep.
    - unfold rec_active in Ha. rewrite Ep in Ha. discriminate.
    - reflexivity.
    - replace r1 with r by (subst r1; destruct r; simpl in *; congruence).
      rewrite list_insert_id by assumption. now destruct w. }
  exists id, r. eexists _, _.
  split; [assumption|]. split; [assumption|]. split; [exact Hstop|].
  rewrite Hstop. fields.
  assert (Hr1 : <[id := r1]> (recorders w) !! id = Some r1)
    by now apply list_lookup_insert_eq.
  split; [exact Hr1|].
  split; [intros id' Hne; now apply list_lookup_insert_ne|].
  split; [unfold controllerState; fields; now rewrite Hrec|].
  split; [exact (step_RecorderStopped
                  (set_recorders (<[id := r1]> (recorders w)) w) id r1 Hr1
                  eq_refl)|].
  cbv zeta. unfold onstop, stop_tracks. fields.
  subst r1. cbn [rec_stream rec_mimeType]. rewrite Hmime.
  split; [reflexivity|]. split; [reflexivity|]. split; [reflexivity|].
  split; [reflexivity|].
  split.
  - apply list_lookup_insert_eq. now rewrite length_insert.
  - now apply list_lookup_insert_eq.
Qed.

Lemma stop_then_finalize_witness :
  let w := after [UserMediaSettled 0 true Started; StartRecording Started;
                  DataAvailable 0 (segment 3)] in
  exists id r w2 artifact,
    mediaRecorderRef w = Some id /\ recorders w !! id = Some r /\
    stopRecording w =
      set_recorders
        (<[id := mkRecorder (rec_stream r) (rec_mimeType r) rs_stopping]>
           (recorders w)) w /\
    recorders (stopRecording w) !! id =
      Some (mkRecorder (rec_stream r) (rec_mimeType r) rs_stopping) /\
    (forall id', id' <> id ->
       recorders (stopRecording w) !! id' = recorders w !! id') /\
    controllerState (stopRecording w) = Recording /\
    step (stopRecording w) (RecorderStopped id) = Some w2 /\
    isRecording w2 = false /\
    videoBlob w2 = Some artifact /\
    blob_bytes artifact = concat (map blob_bytes (recordedChunksRef w)) /\
    blob_type artifact = "video/webm" /\
    recorders w2 !! id =
      Some (mkRecorder (rec_stream r) (rec_mimeType r) rs_inactive) /\
    streams w2 !! rec_stream r = Some ended.
Proof.
  intros w. apply (stop_then_finalize w).
  - exists [UserMediaSettled 0 true Started; StartRecording Started;
            DataAvailable 0 (segment 3)].
    vm_compute. reflexivity.
  - vm_compute. reflexivity.
Defined.

(** X8.  After a take the preview still holds the stream that was recorded,
    its tracks ended.  [startRecording] then finds a stream, so it does not
    acquire a new one: nothing is suspended, no stream is handed out, and
    the recorder it constructs records the ended stream. *)
Theorem restart_reuses_stopped_stream
    (w : World) (id : nat) (r : MediaRecorder) :
  reachable w -> recorders w !! id = Some r -> rec_active r = true ->
  current_srcObject w = Some (rec_stream r) ->
  exists w1,
    step w (RecorderStopped id) = Some w1 /\
    current_srcObject w1 = Some (rec_stream r) /\
    stream_live w1 = false /\
    forall mk,
      let w2 := startRecording mk w1 in
      suspended w2 = suspended w1 /\ streams w2 = streams w1 /\
      stream_live w2 = false /\
      (mk = Started ->
       recorders w2 !! length (recorders w1) =
         Some (mkRecorder (rec_stream r) options_mimeType rs_recording)).
Proof.
  intros Hreach Hr Ha Hsrc.
  assert (Hlt : rec_stream r < length (streams w)).
  { rewrite (preview_reachable w Hreach) in Hsrc.
    now apply latest_stream_lt. }
  eexists. split; [exact (step_RecorderStopped w id r Hr Ha)|].
  cbv zeta.
  assert (Hsrc1 : forall w0, videoRef w0 = videoRef w ->
                    current_srcObject w0 = Some (rec_stream r)).
  { intros w0 Hv0. unfold current_srcObject in *. now rewrite Hv0. }
  split; [now apply Hsrc1|]. split.
  - unfold stream_live. erewrite Hsrc1 by reflexivity.
    unfold onstop, stop_tracks. fields. cbn [rec_stream].
    now rewrite list_lookup_insert_eq.
  - intros mk. unfold startRecording.
    erewrite Hsrc1 by reflexivity.
    unfold stream_live.
    erewrite Hsrc1 by (now rewrite videoRef_startRecording_try).
    unfold onstop, stop_tracks.
    destruct mk; unfold startRecording_try; fields; cbn [rec_stream];
      rewrite list_lookup_insert_eq by assumption;
      (split; [reflexivity|]); (split; [reflexivity|]);
      (split; [reflexivity|]); intros Hmk; try discriminate.
    apply lookup_snoc_new.
Qed.

Lemma restart_reuses_stopped_stream_witness :
  let w := after [UserMediaSettled 0 true Started; StartRecording Started;
                  DataAvailable 0 (segment 3)] in
  exists w1,
    step w (RecorderStopped 0) = Some w1 /\
    current_srcObject w1 = Some 0 /\
    stream_live w1 = false /\
    forall mk,
      let w2 := startRecording mk w1 in
      suspended w2 = suspended w1 /\ streams w2 = streams w1 /\
      stream_live w2 = false /\
      (mk = Started ->
       recorders w2 !! length (recorders w1) =
         Some (mkRecorder 0 options_mimeType rs_recording)).
Proof.
  intros w.
  apply (restart_reuses_stopped_stream w 0
           (mkRecorder 0 options_mimeType rs_recording)).
  - exists [UserMediaSettled 0 true Started; StartRecording Started;
            DataAvailable 0 (segment 3)].
    vm_compute. reflexivity.
  - vm_compute. reflexivity.
  - reflexivity.
  - vm_compute. reflexivity.
Defined.

(** ** What the rendered controls allow *)

(** X9.  When the handlers are invoked through the rendered controls,
    uploads never overlap: at most one upload is awaiting its answer, and
    one is exactly while [uploading] is true. *)
Theorem uploads_never_overlap (es : list Event) (w : World) :
  run_ui mounted es = Some w ->
  uploads_in_flight w <= 1 /\
  (uploading w = true <-> uploads_in_flight w = 1).
Proof.
  intros Hrun.
  pose proof (uploads_in_flight_run es mounted w eq_refl Hrun) as H.
  rewrite H. destruct (uploading w); split; try lia; split; congruence.
Qed.

Lemma uploads_never_overlap_witness :
  uploads_in_flight (after (one_take ++ [HandleUpload "0b9f"])) <= 1 /\
  (uploading (after (one_take ++ [HandleUpload "0b9f"])) = true <->
   uploads_in_flight (after (one_take ++ [HandleUpload "0b9f"])) = 1).
Proof.
  apply (uploads_never_overlap (one_take ++ [HandleUpload "0b9f"])).
  vm_compute. reflexivity.
Defined.



(** X11.  What the user is shown in each controller state of a reachable
    world.  Recording: the stop button alone.  Uploading: the start button
    and the upload button, both disabled, the latter labelled
    "Uploading...", the review player and an orange status line.
    Recorded: the start and upload buttons enabled, the review player and
    a green status line.  Idle and StreamReady: the start button alone,
    enabled, and a black status line. *)
Theorem render_follows_state (w : World) :
  reachable w ->
  match controllerState w with
  | Recording =>
      startButton (render w) = None /\
      stopButton (render w) = Some (mkControl false "Stop Recording") /\
      uploadButton (render w) = None /\ review (render w) = None
  | Uploading =>
      startButton (render w) = Some (mkControl true "Start Recording") /\
      stopButton (render w) = None /\
      uploadButton (render w) = Some (mkControl true "Uploading...") /\
      review (render w) = videoBlob w /\ videoBlob w <> None /\
      statusColor (render w) = "orange"
  | Recorded =>
      startButton (render w) = Some (mkControl false "Start Recording") /\
      stopButton (render w) = None /\
      uploadButton (render w) = Some (mkControl false "Upload Video") /\
      review (render w) = videoBlob w /\ videoBlob w <> None /\
      statusColor (render w) = "green"
  | Idle | StreamReady =>
      startButton (render w) = Some (mkControl false "Start Recording") /\
      stopButton (render w) = None /\
      uploadButton (render w) = None /\ review (render w) = None /\
      statusColor (render w) = "black"
  end.
Proof.
  intros Hreach.
  apply state_invariant_reachable, state_invariant_fields in Hreach.
  destruct Hreach as [Hrec Hup].
  unfold controllerState, render. simpl.
  destruct (isRecording w) eqn:Er; simpl.
  - destruct (Hrec eq_refl) as [Hblob _]. rewrite Hblob. repeat split.
  - destruct (uploading w) eqn:Eu; simpl.
    + specialize (Hup eq_refl eq_refl).
      destruct (videoBlob w) as [blob|]; [|congruence].
      repeat split; discriminate.
    + destruct (videoBlob w) as [blob|].
      * repeat split; discriminate.
      * destruct (stream_live w); repeat split.
Qed.

Lemma render_follows_state_witness :
  startButton (render (after (one_take ++ [HandleUpload "0b9f"]))) =
    Some (mkControl true "Start Recording") /\
  uploadButton (render (after (one_take ++ [HandleUpload "0b9f"]))) =
    Some (mkControl true "Uploading...") /\
  statusColor (render (after (one_take ++ [HandleUpload "0b9f"]))) = "orange".
Proof.
  pose proof (render_follows_state (after (one_take ++ [HandleUpload "0b9f"])))
    as H.
  assert (Hstate : controllerState (after (one_take ++ [HandleUpload "0b9f"]))
                   = Uploading) by (vm_compute; reflexivity).
  rewrite Hstate in H.
  destruct H as (Hstart & _ & Hupload & _ & _ & Hcolor).
  - exists (one_take ++ [HandleUpload "0b9f"]). vm_compute. reflexivity.
  - split; [exact Hstart|]. split; [exact Hupload|exact Hcolor].
Defined.

(** X14.  While the controller is Recording there is no artifact, so
    [handleUpload] invoked in that state starts no upload: it only sets the
    status message. *)
Theorem upload_while_recording_is_refused (w : World) (uuid : string) :
  reachable w -> controllerState w = Recording ->
  handleUpload uuid w = setStatusMessage "No video to upload." w.
Proof.
  intros Hreach Hstate.
  assert (Hrec : isRecording w = true).
  { unfold controllerState in Hstate. destruct (isRecording w); [reflexivity|].
    destruct (uploading w); [discriminate|].
    destruct (videoBlob w); [discriminate|].
    destruct (stream_live w); discriminate. }
  destruct (current_session w Hreach Hrec) as [Hblob _].
  unfold handleUpload. now rewrite Hblob.
Qed.

Lemma upload_while_recording_is_refused_witness :
  let w := after [UserMediaSettled 0 true Started; StartRecording Started;
                  DataAvailable 0 (segment 3)] in
  handleUpload "0b9f" w = setStatusMessage "No video to upload." w.
Proof.
  intros w. apply (upload_while_recording_is_refused w "0b9f").
  - exists [UserMediaSettled 0 true Started; StartRecording Started;
            DataAvailable 0 (segment 3)].
    vm_compute. reflexivity.
  - vm_compute. reflexivity.
Defined.

(** ** The type and the reported size of an artifact *)

Lemma includes_semicolon_cons (c : ascii) (s : string) :
  Js.includes (String c s) ";" = Ascii.eqb c ";" || Js.includes s ";".
Proof.
  cbn [Js.includes String.prefix].
  destruct (ascii_dec ";" c) as [<-|Hne].
  - now destruct s.
  - assert (Ascii.eqb c ";" = false) as -> by (apply Ascii.eqb_neq; congruence).
    reflexivity.
Qed.

Lemma split_head_no_semicolon (s : string) :
  Js.includes (Js.split_head ";" s) ";" = false.
Proof.
  induction s as [|c s IH]; [reflexivity|].
  cbn [Js.split_head]. destruct (Ascii.eqb c ";") eqn:Ec; [reflexivity|].
  now rewrite includes_semicolon_cons, Ec, IH.
Qed.

Lemma split_head_prefix (s : string) :
  String.prefix (Js.split_head ";" s) s = true.
Proof.
  induction s as [|c s IH]; [reflexivity|].
  cbn [Js.split_head]. destruct (Ascii.eqb c ";"); [reflexivity|].
  cbn [String.prefix]. destruct (ascii_dec c c); [assumption|congruence].
Qed.

Lemma to_lower_semicolon (c : ascii) :
  Ascii.eqb c ";" = false -> Ascii.eqb (Js.to_lower c) ";" = false.
Proof.
  destruct c as [[] [] [] [] [] [] [] []]; vm_compute; congruence.
Qed.

Lemma lower_no_semicolon (s : string) :
  Js.includes s ";" = false -> Js.includes (Js.lower s) ";" = false.
Proof.
  induction s as [|c s IH]; [reflexivity|].
  cbn [Js.lower]. rewrite !includes_semicolon_cons.
  intros H. apply orb_false_iff in H. destruct H as [Hc Hs].
  now rewrite (to_lower_semicolon c Hc), (IH Hs).
Qed.

(** X12.  The type of the artifact is the recorder's MIME type cut at its
    first semicolon: whatever MIME type the recorder reports, the base
    type is a prefix of it, and the artifact's type carries no parameter
    (it contains no semicolon). *)
Theorem artifact_type_has_no_parameters (recorder : MediaRecorder) (w : World) :
  String.prefix (Js.split_head ";" (rec_mimeType recorder))
    (rec_mimeType recorder) = true /\
  exists artifact,
    videoBlob (onstop recorder w) = Some artifact /\
    Js.includes (blob_type artifact) ";" = false.
Proof.
  split; [apply split_head_prefix|].
  eexists. split; [reflexivity|].
  unfold new_Blob. cbn [blob_type].
  destruct (Js.all_printable _); [|reflexivity].
  apply lower_no_semicolon, split_head_no_semicolon.
Qed.

(** X13.  The size in the status message is rounded to hundredths of a
    mebibyte, so a recording of less than 5243 bytes, empty or not, is
    reported as 0.00 MB. *)
Theorem small_recording_reported_as_zero (recorder : MediaRecorder) (w : World) :
  (N.of_nat (list_sum (map blob_size (recordedChunksRef w))) <= 5242)%N ->
  statusMessage (onstop recorder w) =
    "Recording finished. Size: 0.00 MB. Ready to upload.".
Proof.
  intros Hsize. unfold onstop, stop_tracks. fields.
  rewrite blob_size_new_Blob. unfold Js.megabytes_toFixed2.
  rewrite (N.div_small (200 * _ + 1048576) 2097152) by lia. reflexivity.
Qed.

Lemma small_recording_reported_as_zero_witness :
  statusMessage
    (onstop (mkRecorder 0 options_mimeType rs_inactive)
       (set_recordedChunksRef [segment 3; segment 5] camera_ready)) =
    "Recording finished. Size: 0.00 MB. Ready to upload.".
Proof.
  apply small_recording_reported_as_zero. vm_compute. discriminate.
Defined.

(** ** Storage client initialisation, read backwards *)

(** X15.  The module calls [createClient] at most once, only with the two
    configuration values it read and only when both are non-empty, and it
    exports no client but the one that call returned.  When it throws, the
    error is its own fixed message, one of the two values being undefined
    or empty and [createClient] not called, or it is the error that
    [createClient] threw on the two values. *)
Theorem supabase_result
    (Client : Type) (createClient : string -> string -> string + Client)
    (supabaseUrl supabaseAnonKey : option string) :
  let run := supabase createClient supabaseUrl supabaseAnonKey in
  length (client_calls run) <= 1 /\
  (forall url key,
     (url, key) ∈ client_calls run ->
     supabaseUrl = Some url /\ supabaseAnonKey = Some key /\
     url <> EmptyString /\ key <> EmptyString) /\
  (forall client,
     module_result run = Exports client ->
     exists url key,
       client_calls run = [(url, key)] /\ createClient url key = inr client) /\
  (forall error,
     module_result run = Throws error ->
     (error = missing_configuration /\ client_calls run = [] /\
      (Js.not supabaseUrl = true \/ Js.not supabaseAnonKey = true)) \/
     (exists url key,
        client_calls run = [(url, key)] /\ createClient url key = inl error)).
Proof.
  cbv zeta. unfold supabase.
  destruct supabaseUrl as [url|], supabaseAnonKey as [key|]; simpl.
  - destruct (String.eqb url EmptyString) eqn:Eu; simpl.
    + split; [lia|]. split; [intros u k Hin; inversion Hin|].
      split; [discriminate|]. intros error H. inversion H. left. auto.
    + destruct (String.eqb key EmptyString) eqn:Ek; simpl.
      * split; [lia|]. split; [intros u k Hin; inversion Hin|].
        split; [discriminate|]. intros error H. inversion H. left. auto.
      * apply String.eqb_neq in Eu, Ek.
        split; [lia|]. split.
        { intros u k Hin. apply list_elem_of_singleton in Hin.
          inversion Hin; subst. auto. }
        destruct (createClient url key) as [e|c] eqn:Ec; split.
        -- discriminate.
        -- intros error H. inversion H; subst. right. now exists url, key.
        -- intros client H. inversion H; subst. now exists url, key.
        -- discriminate.
  - destruct (String.eqb url EmptyString); simpl;
      (split; [lia|]); (split; [intros u k Hin; inversion Hin|]);
      (split; [discriminate|]); intros error H; inversion H; left; auto.
  - split; [lia|]. split; [intros u k Hin; inversion Hin|].
    split; [discriminate|]. intros error H. inversion H. left. auto.
  - split; [lia|]. split; [intros u k Hin; inversion Hin|].
    split; [discriminate|]. intros error H. inversion H. left. auto.
Qed.

Lemma supabase_result_witness :
  exists url key,
    client_calls
      (supabase checking_createClient (Some "https://project.supabase.co")
         (Some "anon-key")) = [(url, key)] /\
    checking_createClient url key =
      inr (mkClient "https://project.supabase.co" "anon-key").
Proof.
  destruct (supabase_result SupabaseClient checking_createClient
              (Some "https://project.supabase.co") (Some "anon-key"))
    as (_ & _ & Hexports & _).
  apply Hexports. reflexivity.
Defined.
